(** * Cellular automaton for wind farm site projection (CA_Model_Code.py)

    A shallow embedding of the simulation core of [CA_Model_Code.py]: the
    constraints and the neighborhood effect factors of
    [ConstraintNeighborhood()], and, from [CellularAutomaton()], the gained
    capacity, the scenarios, the coefficient iteration, the probability
    calculation, the composite score written by [CalculateField], the
    conversion of grid cells in each time step, the update of the
    neighborhood effect factors and the quantity and allocation
    disagreement.

    Conventions.  The answers "Y"/"N" kept in [ConstYesNo] and
    [NeighYesNo] reply to "Would you like to switch off the constraints?"
    and "Would you like to switch off the neighborhood effects?": [Y]
    means switched OFF, [N] means in use.  Python floats are idealised:
    exact rationals ([Q]) where the code only adds, multiplies, divides and
    compares, real numbers ([R]) from the point where [e**z] is taken;
    [probBinary64] gives the last operations of the probability in
    binary64, where rounding matters.
    Integer counts are [nat] or [Z]; text fields are strings.  Exceptions
    that stop the script are values of [result]. *)

From Stdlib Require Import ZArith QArith Qabs Qround Qpower Qreals Reals Lra Lia Psatz.
From Stdlib Require Import Floats.
From Stdlib Require Import List Bool String Ascii Permutation Sorted.
Import ListNotations.

(** ** Shared data *)

(** A reply to a yes-or-no question of the script. *)
Inductive YesNo : Set := Y | N.

(** The exceptions the modelled code can raise. *)
Inductive exception : Set :=
| ZeroDivisionError   (* int / int with a zero divisor *)
| ExecuteError        (* a geoprocessing tool fails, e.g. on a NULL operand *)
| IndexError          (* list index out of range *)
| ValueError.         (* pandas: length of values does not match the index *)

Inductive result (A : Type) : Type :=
| Ok (a : A)
| Raise (e : exception).
Arguments Ok {A} a.
Arguments Raise {A} e.

Definition bind {A B : Type} (c : result A) (k : A -> result B) : result B :=
  match c with
  | Ok a => k a
  | Raise e => Raise e
  end.

Notation "x <- c ;; k" := (bind c (fun x => k))
  (at level 61, c at next level, right associativity).
Notation "' p <- c ;; k" := (bind c (fun p => k))
  (at level 61, p pattern, c at next level, right associativity).

(** Results of a loop body collected over a list, stopping at the first
    exception. *)
Fixpoint mapM {A B : Type} (f : A -> result B) (l : list A) : result (list B) :=
  match l with
  | [] => Ok []
  | a :: l' => b <- f a ;; bs <- mapM f l' ;; Ok (b :: bs)
  end.

(** One row of the attribute table of the gridded surface, with the fields
    "Constraint" and "Neighborhood" that [ConstraintNeighborhood] writes
    before the projection.  A surface of an earlier run that lacks one of
    them (the switches are set to "N" without a scan when the user keeps
    the earlier constraints, lines 222-225) makes [CalculateField] fail;
    such a surface is not a value of this type. *)
Record Row : Type := mkRow {
  TARGET_FID : Z;                (* the grid cell number *)
  Wind_Turb : string;            (* "Y" or "N": wind farm before the run *)
  Constraint : Q;                (* 0 if a constraint is violated, else 1 *)
  Neighborhood : Q;              (* factor of the initial full scan *)
  Neighb_Update : option Q;      (* updated factor; [None] is NULL *)
  Probab : R;                    (* probability of the current time step *)
  Probab_year : R;               (* the field "Probab_" + timeSteps[f] *)
  Wind_Turb_Fut : string;        (* "N", "Y" or "Y (<year>)" *)
  predictorValues : list Q       (* dfArray[cell], the normalised predictors *)
}.

Definition set_Neighborhood (v : Q) (r : Row) : Row :=
  mkRow (TARGET_FID r) (Wind_Turb r) (Constraint r) v (Neighb_Update r)
        (Probab r) (Probab_year r) (Wind_Turb_Fut r) (predictorValues r).

Definition set_Neighb_Update (v : option Q) (r : Row) : Row :=
  mkRow (TARGET_FID r) (Wind_Turb r) (Constraint r) (Neighborhood r) v
        (Probab r) (Probab_year r) (Wind_Turb_Fut r) (predictorValues r).

Definition set_Probab (v : R) (r : Row) : Row :=
  mkRow (TARGET_FID r) (Wind_Turb r) (Constraint r) (Neighborhood r)
        (Neighb_Update r) v (Probab_year r) (Wind_Turb_Fut r)
        (predictorValues r).

Definition set_Probab_year (v : R) (r : Row) : Row :=
  mkRow (TARGET_FID r) (Wind_Turb r) (Constraint r) (Neighborhood r)
        (Neighb_Update r) (Probab r) v (Wind_Turb_Fut r) (predictorValues r).

Definition set_Wind_Turb_Fut (v : string) (r : Row) : Row :=
  mkRow (TARGET_FID r) (Wind_Turb r) (Constraint r) (Neighborhood r)
        (Neighb_Update r) (Probab r) (Probab_year r) v (predictorValues r).

Definition set_predictorValues (v : list Q) (r : Row) : Row :=
  mkRow (TARGET_FID r) (Wind_Turb r) (Constraint r) (Neighborhood r)
        (Neighb_Update r) (Probab r) (Probab_year r) (Wind_Turb_Fut r) v.

(** ["Y" in s], and the SQL clause [LIKE '%Y%']. *)
Fixpoint containsY (s : string) : bool :=
  match s with
  | EmptyString => false
  | String c s' => Ascii.eqb c "Y"%char || containsY s'
  end.

(** [x in l] for a list of cell numbers. *)
Definition inList (x : Z) (l : list Z) : bool := existsb (Z.eqb x) l.

(** ** Spatial selection

    [SelectLayerByLocation(layer, "HAVE_THEIR_CENTER_IN", selecting,
    distance)] keeps the rows of [layer] whose center lies within the search
    distance of one of the selecting features.  The geometry is the
    collaborator's: [centerIn a b] says that the center of cell [a] lies
    within the search distance ([distance * neighborhoodSize] meters) of
    cell [b]. *)

Section Selection.
Variable centerIn : Z -> Z -> bool.

Definition SelectLayerByAttribute (layer : list Row) (where_clause : Row -> bool)
  : list Row :=
  filter where_clause layer.

Definition SelectLayerByLocation (layer selecting : list Row) : list Row :=
  filter (fun r => existsb (fun s => centerIn (TARGET_FID r) (TARGET_FID s))
                           selecting)
         layer.

End Selection.

(** ** The initial neighborhood effect factors (lines 1741-1786) *)

Module ConstraintNeighborhood.
Section Scan.
Variable centerIn : Z -> Z -> bool.
Local Open Scope Z_scope.

(** The body of [for row in tqdm(cursor)] for the grid cell [gridCell]. *)
Definition neighborhoodEffect (preparedSurface : list Row) (gridCell : Z) : Q :=
  let adjacent :=
    SelectLayerByLocation centerIn preparedSurface
      (SelectLayerByAttribute preparedSurface
         (fun r => TARGET_FID r =? gridCell)) in
  let totalNeighbors := Z.of_nat (List.length adjacent) - 1 in
  let windFarmCount :=
    Z.of_nat (List.length (filter (fun row => String.eqb (Wind_Turb row) "Y"%string
                                         && negb (TARGET_FID row =? gridCell))
                             adjacent)) in
  if 0 <? totalNeighbors
  then (inject_Z windFarmCount / inject_Z totalNeighbors)%Q
  else 0%Q.

(** The whole scan: one factor per row, written to the new field
    "Neighborhood" in cursor order. *)
Definition neighborhoodEffectList (preparedSurface : list Row) : list Q :=
  map (fun row => neighborhoodEffect preparedSurface (TARGET_FID row))
      preparedSurface.

Definition neighborhoodEffects (preparedSurface : list Row) : list Row :=
  map (fun row =>
         set_Neighborhood (neighborhoodEffect preparedSurface (TARGET_FID row))
                          row)
      preparedSurface.

End Scan.
End ConstraintNeighborhood.

(** ** The cellular automaton (lines 3197-4275) *)

Module CellularAutomaton.

(** *** Coefficient iteration (lines 3256-3292) *)

(** [x > y] on floats. *)
Definition Qgtb (x y : Q) : bool := negb (Qle_bool x y).

(** The body of the loop over [i]: the coefficient of one predictor for
    the next 5-year period, from its percentage change [change] and its
    coefficient [c] in the current period. *)
Definition newCoefficient (change c : Q) : Q :=
  if Qgtb change 0 then (c + Qabs (c * (change / 100)))%Q
  else if Qgtb 0 change then (c - Qabs (c * (change / 100)))%Q
  else c.

(** [newCoefficients] as filled by
    [for i in range(len(dfCoeffs["Coeff_2020"]))], reading the column [col]
    of the year [yearList[h]].  The columns of [dfCoeffs] have one length
    (the assignment of a column of another length raises ValueError, see
    [Scenarios.dfCoeffsFrame]), so the default of [nth] is not read in a
    run. *)
Definition newCoefficients (changes c2020 col : list Q) : list Q :=
  map (fun i => newCoefficient (nth i changes 0%Q) (nth i col 0%Q))
      (seq 0 (List.length c2020)).

(** The coefficient columns of [dfCoeffs] in the order of [yearList]:
    "Coeff_2020", then one column added by each turn of
    [for h in range(6)]. *)
Definition coefficientColumns (changes c2020 : list Q) : list (list Q) :=
  fold_left
    (fun cols h => cols ++ [newCoefficients changes c2020 (nth h cols [])])
    (seq 0 6) [c2020].

(** [dfCoeffs["Coeff_" + yearList[t]][i]]. *)
Definition coeffAt (changes c2020 : list Q) (t i : nat) : Q :=
  nth i (nth t (coefficientColumns changes c2020) []) 0%Q.

(** The update in the words of the specification: [|c| * delta / 100] is
    added for a positive delta and subtracted for a negative one. *)
Definition specCoefficientStep (delta c : Q) : Q :=
  if Qgtb delta 0 then (c + Qabs c * delta / 100)%Q
  else if Qgtb 0 delta then (c - Qabs c * delta / 100)%Q
  else c.

(** *** The predictor configurations (lines 3201-3263) *)

(** What the logistic regression left for one predictor configuration, with
    the scenario's coefficient changes for its predictors. *)
Record FittedModel : Type := mkFitted {
  dfCoefficients : list Q;        (* dfCoefficients<X>["Coefficients"] *)
  coefficientChanges : list Q;    (* coefficientChanges<X>, in percent *)
  predictors : list string;       (* predictors<X> *)
  dfIntercept : Q                 (* dfIntercept<X>["Intercept"][0] *)
}.

Record ConfigLists : Type := mkLists {
  coefficientList : list (list Q);
  coeffChangeList : list (list Q);
  predictorList : list (list string);
  interceptList : list Q;
  configList : list string
}.

(** The entry of the null configuration, always first.  [interceptList]
    gets no entry here. *)
Definition nullLists : ConfigLists :=
  mkLists [[0%Q]] [[0%Q]] [["Null"%string]] [] ["Null"%string].

(** [if dfCoefficients<X> is not None: ... append ...]. *)
Definition appendConfig (name : string) (m : option FittedModel)
                        (L : ConfigLists) : ConfigLists :=
  match m with
  | None => L
  | Some m =>
      mkLists (coefficientList L ++ [dfCoefficients m])
              (coeffChangeList L ++ [coefficientChanges m])
              (predictorList L ++ [predictors m])
              (interceptList L ++ [dfIntercept m])
              (configList L ++ [name])
  end.

Definition buildLists (Full NoWind WindOnly Reduced : option FittedModel)
  : ConfigLists :=
  appendConfig "Reduced" Reduced
    (appendConfig "Wind_Only" WindOnly
       (appendConfig "No_Wind" NoWind
          (appendConfig "Full" Full nullLists))).

(** [l[g]] on a Python list. *)
Definition index {A : Type} (l : list A) (g : nat) : result A :=
  match nth_error l g with
  | Some v => Ok v
  | None => Raise IndexError
  end.

(** The head of the loop [for g in range(len(coeffChangeList))]: under the
    null configuration [interceptList.insert(0, interceptList[g])]. *)
Definition insertNullIntercept (configs : list string) (intercepts : list Q)
                               (g : nat) : result (list Q) :=
  if String.eqb (nth g configs ""%string) "Null" then
    v <- index intercepts g ;; Ok (v :: intercepts)
  else Ok intercepts.

(** What the loop over [g] hands to the projection of each configuration:
    the value of [interceptList[g]] read by the probability calculation and
    the coefficient columns [dfCoeffs]. *)
Fixpoint configurations (L : ConfigLists) (intercepts : list Q) (gs : list nat)
  : result (list (Q * list (list Q))) :=
  match gs with
  | [] => Ok []
  | g :: gs' =>
      intercepts' <- insertNullIntercept (configList L) intercepts g ;;
      intercept <- index intercepts' g ;;
      let dfCoeffs :=
        coefficientColumns (nth g (coeffChangeList L) [])
                           (nth g (coefficientList L) []) in
      rest <- configurations L intercepts' gs' ;;
      Ok ((intercept, dfCoeffs) :: rest)
  end.

Definition projectionInputs (Full NoWind WindOnly Reduced : option FittedModel)
  : result (list (Q * list (list Q))) :=
  let L := buildLists Full NoWind WindOnly Reduced in
  configurations L (interceptList L) (seq 0 (List.length (coeffChangeList L))).




(** *** Probability calculation (lines 3544-3549) *)

(** [list * ndarray], elementwise. *)
Fixpoint multiply (a b : list Q) : list Q :=
  match a, b with
  | u :: a', v :: b' => (u * v)%Q :: multiply a' b'
  | _, _ => []
  end.

(** Python's [sum]. *)
Definition sum (l : list Q) : Q := fold_left Qplus l 0%Q.

(** [1/(1+e**-(interceptList[g] + sum(coeff[0:n]*dfArray[cell][0:n])))]
    with [n = len(dfArray[0])], in exact arithmetic. *)
Definition prob (intercept : Q) (coeff : list Q) (n : nat) (cell : list Q) : R :=
  (1 / (1 + exp (- Q2R (intercept
                        + sum (multiply (firstn n coeff) (firstn n cell))))))%R.

(** The same line as it is computed, in binary64, from the value [x] that
    the power [e**-(...)] returns: [1/(1+x)]. *)
Definition probBinary64 (x : float) : float := (1 / (1 + x))%float.

(** The number of predictor columns, [len(dfArray[0])]; not evaluated when
    the table has no row. *)
Definition predictorCount (table : list Row) : nat :=
  match table with
  | [] => 0
  | row :: _ => List.length (predictorValues row)
  end.

(** Lines 3545-3557: the probabilities are recomputed and written to the
    field "Probab". *)
Definition refillProbab (intercept : Q) (coeff : list Q) (table : list Row)
  : list Row :=
  map (fun row =>
         set_Probab (prob intercept coeff (predictorCount table)
                          (predictorValues row)) row)
      table.

(** *** One time step (lines 3559-3945) *)

Section Projection.
Variable centerIn : Z -> Z -> bool.
(** [ConstraintNeighborhood.ConstYesNo], [ConstraintNeighborhood.NeighYesNo]:
    [Y] is switched off. *)
Variables ConstYesNo NeighYesNo : YesNo.
(** The number of grid cells that gain a wind farm in each time step. *)
Variable gridCellsChanged : nat.

(** The years for which the cellular automaton is executed. *)
Definition timeSteps : list string :=
  ["2025"; "2030"; "2035"; "2040"; "2045"; "2050"]%string.

Definition timeStep (f : nat) : string := nth f timeSteps ""%string.

(** ["Y (" + timeSteps[f] + ")"]. *)
Definition gained (f : nat) : string :=
  String.append "Y (" (String.append (timeStep f) ")").

(** A field read inside a [CalculateField] expression; the tool fails on
    NULL. *)
Definition readField (v : option Q) : result R :=
  match v with
  | Some q => Ok (Q2R q)
  | None => Raise ExecuteError
  end.

(** The expression [CalculateField] evaluates on a row for the field
    "Probab_" + timeSteps[f] (lines 3573-3604); [count] is the number of
    grid cells with a wind farm before the run. *)
Definition compositeScore (f count : nat) (row : Row) : result R :=
  if String.eqb (timeStep f) "2025" && (count <? 2)%nat then
    match ConstYesNo with
    | Y => Ok (Probab row)
    | N => Ok (Q2R (Constraint row) * Probab row)%R
    end
  else if String.eqb (timeStep f) "2025" && (2 <=? count)%nat then
    match NeighYesNo, ConstYesNo with
    | Y, N => Ok (Q2R (Constraint row) * Probab row)%R
    | N, Y => Ok (Q2R (Neighborhood row) * Probab row)%R
    | Y, Y => Ok (Probab row)
    | N, N => Ok (Q2R (Constraint row) * Q2R (Neighborhood row) * Probab row)%R
    end
  else
    match NeighYesNo, ConstYesNo with
    | Y, N => Ok (Q2R (Constraint row) * Probab row)%R
    | N, Y => n <- readField (Neighb_Update row) ;; Ok (n * Probab row)%R
    | Y, Y => Ok (Probab row)
    | N, N => n <- readField (Neighb_Update row) ;;
              Ok (Q2R (Constraint row) * n * Probab row)%R
    end.

Definition CalculateField (f count : nat) (table : list Row)
  : result (list Row) :=
  mapM (fun row => v <- compositeScore f count row ;; Ok (set_Probab_year v row))
       table.

(** [Sort_management(noFarm, ..., [[fieldName, "DESCENDING"]])]: the rows by
    descending value of the field; rows with equal values keep their order
    in the table. *)
Definition Rleb (a b : R) : bool := if Rle_dec a b then true else false.

Fixpoint insertDescending (row : Row) (sorted : list Row) : list Row :=
  match sorted with
  | [] => [row]
  | row' :: rest =>
      if Rleb (Probab_year row') (Probab_year row) then row :: sorted
      else row' :: insertDescending row rest
  end.

Definition Sort (rows : list Row) : list Row :=
  fold_right insertDescending [] rows.

(** Lines 3653-3663, constraints in use: the cursor walks the highest ranked
    cells and stops at the first one that violates a constraint.  Gives the
    rows of [cellsToConvert] after the cursor, [cellNoList] and
    [abortScript]. *)
Fixpoint convertUnlessConstrained (f : nat) (cellsToConvert : list Row)
  : list Row * list Z * bool :=
  match cellsToConvert with
  | [] => ([], [], false)
  | row :: rest =>
      if Qeq_bool (Constraint row) 0 then (cellsToConvert, [], true)
      else
        let '(rest', cellNoList, abortScript) :=
          convertUnlessConstrained f rest in
        (set_Wind_Turb_Fut (gained f) row :: rest',
         TARGET_FID row :: cellNoList, abortScript)
  end.

(** Lines 3669-3673, constraints switched off: every selected cell is
    converted. *)
Definition convertAll (f : nat) (cellsToConvert : list Row)
  : list Row * list Z * bool :=
  (map (set_Wind_Turb_Fut (gained f)) cellsToConvert,
   map TARGET_FID cellsToConvert, false).

Definition convert (f : nat) (cellsToConvert : list Row)
  : list Row * list Z * bool :=
  match ConstYesNo with
  | N => convertUnlessConstrained f cellsToConvert
  | Y => convertAll f cellsToConvert
  end.

(** Lines 3678-3683: the gridded surface is updated from [cellNoList]. *)
Definition updateSurface (f : nat) (cellNoList : list Z) (table : list Row)
  : list Row :=
  map (fun row =>
         if inList (TARGET_FID row) cellNoList
         then set_Wind_Turb_Fut (gained f) row else row)
      table.

(** *** Update of the neighborhood effect factors (lines 3857-3926) *)

(** The body of [for row1 in tqdm(subCursor)]: the updated factor of
    [row1], a row of [adjacent].  The neighbors are selected in
    "adjacent_lyr". *)
Definition updatedFactor (adjacent : list Row) (row1 : Row) : result Q :=
  let gridCell := TARGET_FID row1 in
  let neighbors :=
    SelectLayerByLocation centerIn adjacent
      (SelectLayerByAttribute adjacent (fun r => (TARGET_FID r =? gridCell)%Z)) in
  let totalNeighbors := (Z.of_nat (List.length neighbors) - 1)%Z in
  let windFarmCount :=
    Z.of_nat (List.length (filter (fun row2 => containsY (Wind_Turb_Fut row2)
                                          && negb (TARGET_FID row2 =? gridCell)%Z)
                             neighbors)) in
  if (totalNeighbors =? 0)%Z then Raise ZeroDivisionError
  else Ok (inject_Z windFarmCount / inject_Z totalNeighbors)%Q.

(** The body of [for row in cursor] over [mergedCells]: for a grid cell that
    gained a wind farm in this time step, the entries appended to
    [gridCellList] and [neighborhoodList]. *)
Definition updatesAround (f : nat) (mergedCells : list Row) (row : Row)
  : result (list (Z * Q)) :=
  if String.eqb (Wind_Turb_Fut row) (gained f) then
    let adjacent :=
      SelectLayerByLocation centerIn mergedCells
        (SelectLayerByAttribute mergedCells
           (fun r => String.eqb (Wind_Turb_Fut r) (Wind_Turb_Fut row)
                     && (TARGET_FID r =? TARGET_FID row)%Z)) in
    mapM (fun row1 => v <- updatedFactor adjacent row1 ;;
                      Ok (TARGET_FID row1, v))
         adjacent
  else Ok [].

(** [gridCellList] and [neighborhoodList], zipped. *)
Definition updatedFactors (f : nat) (mergedCells : list Row)
  : result (list (Z * Q)) :=
  lists <- mapM (updatesAround f mergedCells) mergedCells ;;
  Ok (List.concat lists).

(** Lines 3917-3926 for one row: every matching entry is written in turn,
    then a factor that is still NULL takes the original value. *)
Definition writeFactor (updates : list (Z * Q)) (row : Row) : Row :=
  let written :=
    fold_left (fun current '(gridCell, v) =>
                 if (TARGET_FID row =? gridCell)%Z then Some v else current)
              updates (Neighb_Update row) in
  match written with
  | Some v => set_Neighb_Update (Some v) row
  | None => set_Neighb_Update (Some (Neighborhood row)) row
  end.

(** The nested function [neighborhoodEffects()] of the time step. *)
Definition neighborhoodEffects (f : nat) (mergedCells table : list Row)
  : result (list Row) :=
  updates <- updatedFactors f mergedCells ;;
  Ok (map (writeFactor updates) table).

(** *** The time step and the loop over the time steps *)

(** The fields are emptied and refilled before the first time step (lines
    3432-3526): "Wind_Turb_Fut" starts as "Wind_Turb", and "Neighb_Update"
    is deleted and added again when the neighborhood effects are in use. *)
Definition initialise (table : list Row) : list Row :=
  map (fun row =>
         set_Wind_Turb_Fut (Wind_Turb row)
           match NeighYesNo with
           | N => set_Neighb_Update None row
           | Y => row
           end)
      table.

(** The number of grid cells that contain a wind farm before the run. *)
Definition windFarmCount (table : list Row) : nat :=
  List.length (filter (fun row => String.eqb (Wind_Turb row) "Y") table).

(** One turn of [for f in range(len(timeSteps))], from the recomputed
    probabilities to the updated factors.  Gives the gridded surface
    [constAndNeighbor], the merged copy [mergedCells] (the final
    [projectedCells]) and whether the loop breaks.

    "Probab_year" stands for the field of the current year, the only one
    of the six that is read.  [yesFarm] is the selection made before the
    conversion, read after it by [Merge]. *)
Definition step (intercept : Q) (coeff : list Q) (count f : nat)
                (table : list Row) : result (list Row * list Row * bool) :=
  let probabilities := refillProbab intercept coeff table in
  scored <- CalculateField f count probabilities ;;
  let noFarm :=
    SelectLayerByAttribute scored
      (fun row => String.eqb (Wind_Turb_Fut row) "N") in
  let sortedCells := Sort noFarm in
  let '(cellsToConvert, cellNoList, abortScript) :=
    convert f (firstn gridCellsChanged sortedCells) in
  let doNotConvert := skipn gridCellsChanged sortedCells in
  let updated := updateSurface f cellNoList scored in
  let yesFarm :=
    map snd (filter (fun p => containsY (Wind_Turb_Fut (fst p)))
                    (combine scored updated)) in
  let mergedCells := yesFarm ++ cellsToConvert ++ doNotConvert in
  final <-
    (if negb (String.eqb (timeStep f) "2050") then
       match NeighYesNo with
       | N => neighborhoodEffects f mergedCells updated
       | Y => Ok updated
       end
     else Ok updated) ;;
  Ok (final, mergedCells,
      match ConstYesNo with N => abortScript | Y => false end).

(** How the loop over the time steps ends. *)
Inductive outcome : Set :=
| Completed
| TerminatedEarly (f : nat)     (* [break] in the time step [f] *)
| Stopped (e : exception).      (* the script stops on an exception *)

(** The loop [for f in range(len(timeSteps))] from the time steps [fs] on:
    the gridded surface and the merged copy after every time step that
    was completed, and how the loop ended. *)
Fixpoint timeLoop (intercept : Q) (dfCoeffs : list (list Q)) (count : nat)
                  (fs : list nat) (table : list Row)
  : list (list Row * list Row) * outcome :=
  match fs with
  | [] => ([], Completed)
  | f :: fs' =>
      match step intercept (nth (S f) dfCoeffs []) count f table with
      | Raise e => ([], Stopped e)
      | Ok (table', mergedCells, abort) =>
          if abort then ([(table', mergedCells)], TerminatedEarly f)
          else
            let '(later, how) := timeLoop intercept dfCoeffs count fs' table' in
            ((table', mergedCells) :: later, how)
      end
  end.

(** The projection of one configuration. *)
Definition projection (intercept : Q) (dfCoeffs : list (list Q))
                      (table : list Row)
  : list (list Row * list Row) * outcome :=
  timeLoop intercept dfCoeffs (windFarmCount table)
           (seq 0 (List.length timeSteps)) (initialise table).

(** The gridded surface before the first time step and after each
    completed one. *)
Definition surfaces (intercept : Q) (dfCoeffs : list (list Q))
                    (table : list Row) : list (list Row) :=
  initialise table :: map fst (fst (projection intercept dfCoeffs table)).

(** One turn of the loop [for g in range(len(coeffChangeList))] on the
    gridded surface [table]: the projection of the configuration [g] with
    its coefficient columns and [interceptList[g]].  Under the null
    configuration the dataframe of predictors is a column of zeros. *)
Definition runConfiguration (Full NoWind WindOnly Reduced : option FittedModel)
                            (g : nat) (table : list Row)
  : result (list (list Row * list Row) * outcome) :=
  inputs <- projectionInputs Full NoWind WindOnly Reduced ;;
  '(intercept, dfCoeffs) <- index inputs g ;;
  let df :=
    if String.eqb (nth g (configList (buildLists Full NoWind WindOnly Reduced))
                       ""%string) "Null"
    then map (set_predictorValues [0%Q]) table else table in
  Ok (projection intercept dfCoeffs df).

End Projection.

(** *** Quantity and allocation disagreement (lines 3961-4270) *)

(** The seven classifications of "Wind_Turb_Fut". *)
Definition classifications : list string :=
  ["N"; "Y (2025)"; "Y (2030)"; "Y (2035)"; "Y (2040)"; "Y (2045)";
   "Y (2050)"]%string.

(** [NCount], [YCount2025], ..., [YCount2050]: the grid cells of
    [projectedCells] that fall into each classification. *)
Definition counts (projectedCells : list Row) : list (list Z) :=
  map (fun c => map TARGET_FID
                    (filter (fun row => String.eqb (Wind_Turb_Fut row) c)
                            projectedCells))
      classifications.

(** [for i in range(len(l)): if l[i] in m: n = n + 1]. *)
Definition countIn (l m : list Z) : Z :=
  Z.of_nat (List.length (filter (fun x => inList x m) l)).

Definition total (l : list Z) : Z := fold_left Z.add l 0%Z.

(** [listNo], [list2025], ...: for one classification under the null
    configuration, the number of its grid cells in each classification
    under the other configuration, then their sum. *)
Definition tableList (countNull : list Z) (countsOther : list (list Z))
  : list Z :=
  let cells := map (countIn countNull) countsOther in
  cells ++ [total cells].

(** [bottomRow]: per classification under the other configuration the sum
    over the seven lists, then [totalCells]. *)
Definition bottomRow (lists : list (list Z)) : list Z :=
  map (fun j => total (map (fun l => nth j l 0%Z) lists)) (seq 0 7)
  ++ [total (map (fun l => nth 7 l 0%Z) lists)].

Definition listOfLists (countsNull countsOther : list (list Z))
  : list (list Z) :=
  let lists := map (fun c => tableList c countsOther) countsNull in
  lists ++ [bottomRow lists].

(** The transposition [list(i) for i in zip] of the unpacked rows, cut to
    the shortest row. *)
Definition transpose (rows : list (list Z)) : list (list Z) :=
  match rows with
  | [] => []
  | first :: others =>
      let width :=
        fold_left Nat.min (map (@List.length Z) others) (List.length first) in
      map (fun i => map (fun row => nth i row 0%Z) rows) (seq 0 width)
  end.

Section Disagreement.
Variables countsNull countsOther : list (list Z).

Definition transList : list (list Z) :=
  transpose (listOfLists countsNull countsOther).

(** [transList[i][j]] and [bottomRow[k]]. *)
Definition cell (i j : nat) : Z := nth j (nth i transList []) 0%Z.
Definition bottom (k : nat) : Z :=
  nth k (nth 7 (listOfLists countsNull countsOther) []) 0%Z.

Local Open Scope Z_scope.

Definition quantDis : Q :=
  (inject_Z (Z.abs (bottom 0 - cell 0 7) + Z.abs (bottom 1 - cell 1 7)
             + Z.abs (bottom 2 - cell 2 7) + Z.abs (bottom 3 - cell 3 7)
             + Z.abs (bottom 4 - cell 4 7) + Z.abs (bottom 5 - cell 5 7)
             + Z.abs (bottom 6 - cell 6 7)) / 2)%Q.

Definition alongRow (i : nat) : Z :=
  cell i 0 + cell i 1 + cell i 2 + cell i 3 + cell i 4 + cell i 5 + cell i 6.
Definition alongColumn (j : nat) : Z :=
  cell 0 j + cell 1 j + cell 2 j + cell 3 j + cell 4 j + cell 5 j + cell 6 j.

Definition quantDisStar : Z :=
  Z.abs ((alongRow 0 + alongRow 1 + alongRow 2 + alongRow 3 + alongRow 4
          + alongRow 5)
         - (alongColumn 0 + alongColumn 1 + alongColumn 2 + alongColumn 3
            + alongColumn 4 + alongColumn 5)).

Definition absoDis : Q :=
  (inject_Z (2 * Z.min (bottom 0 - cell 0 0) (cell 0 7 - cell 0 0)
             + 2 * Z.min (bottom 1 - cell 1 1) (cell 1 7 - cell 1 1)
             + 2 * Z.min (bottom 2 - cell 2 2) (cell 2 7 - cell 2 2)
             + 2 * Z.min (bottom 3 - cell 3 3) (cell 3 7 - cell 3 3)
             + 2 * Z.min (bottom 4 - cell 4 4) (cell 4 7 - cell 4 4)
             + 2 * Z.min (bottom 5 - cell 5 5) (cell 5 7 - cell 5 5)
             + 2 * Z.min (bottom 6 - cell 6 6) (cell 6 7 - cell 6 6)) / 2)%Q.

(** [if quantDis != quantDisStar: ... else: ...]. *)
Definition qFinal : Q :=
  if negb (Qeq_bool quantDis (inject_Z quantDisStar))
  then inject_Z quantDisStar else quantDis.

Definition aFinal : Q :=
  if negb (Qeq_bool quantDis (inject_Z quantDisStar))
  then (absoDis + Qabs (quantDis - inject_Z quantDisStar))%Q else absoDis.

(** The quantity disagreement in the words of the specification: half the
    sum over the seven classifications of the absolute difference between
    the total of the classification's row and the total of its column, in
    the 7 x 7 cross-tabulation. *)
Definition rowTotal (k : nat) : Z := alongRow k.
Definition columnTotal (k : nat) : Z := alongColumn k.

Definition specQuantityDisagreement : Q :=
  (inject_Z (total (map (fun k => Z.abs (rowTotal k - columnTotal k))
                        (seq 0 7))) / 2)%Q.

End Disagreement.

End CellularAutomaton.

(** ** Constraints (lines 528-1524) *)

Module Constraints.

(** What the cursors of [constraints()] read of a grid cell: the wind farm
    field, the nine numeric and the seven categorical fields that can act
    as constraints. *)
Record SurfaceRow : Type := mkSurfaceRow {
  Wind_Turb : string;
  Near_Air : Q;
  Near_Plant : Q;
  Near_Hosp : Q;
  Near_Sch : Q;
  Near_Roads : Q;
  Near_Trans : Q;
  Avg_Elevat : Q;
  Avg_Wind : Q;
  Avg_Temp : Q;
  Military : string;
  Nat_Parks : string;
  Critical : string;
  Historical : string;
  Mining : string;
  Wild_Refug : string;
  Trib_Land : string
}.

Definition isY (s : string) : bool := String.eqb s "Y".
Definition isN (s : string) : bool := String.eqb s "N".

(** [a <= b], [a >= b], [a > b] and [a < b] on floats. *)
Definition leb (a b : Q) : bool := Qle_bool a b.
Definition geb (a b : Q) : bool := Qle_bool b a.
Definition gtb (a b : Q) : bool := negb (Qle_bool a b).
Definition ltb (a b : Q) : bool := negb (Qle_bool b a).

(** The condition of lines 661-663: the grid cell invalidates at least one
    default constraint. *)
Definition prohibitedByDefault (row : SurfaceRow) : bool :=
  leb (Near_Air row) 2500 || leb (Near_Plant row) 10000
  || leb (Near_Hosp row) 2500 || leb (Near_Sch row) 2500
  || leb (Near_Roads row) 500 || geb (Near_Roads row) 10000
  || leb (Near_Trans row) 250 || geb (Near_Trans row) 10000
  || geb (Avg_Elevat row) 2000 || leb (Avg_Wind row) 4
  || leb (Avg_Temp row) 0 || isY (Military row) || isY (Nat_Parks row)
  || isY (Critical row) || isY (Historical row) || isY (Mining row)
  || isY (Wild_Refug row) || isY (Trib_Land row).

(** The condition of lines 670-672: the grid cell invalidates no default
    constraint. *)
Definition allowedByDefault (row : SurfaceRow) : bool :=
  gtb (Near_Air row) 2500 && gtb (Near_Plant row) 10000
  && gtb (Near_Hosp row) 2500 && gtb (Near_Sch row) 2500
  && gtb (Near_Roads row) 500 && ltb (Near_Roads row) 10000
  && gtb (Near_Trans row) 250 && ltb (Near_Trans row) 10000
  && ltb (Avg_Elevat row) 2000 && gtb (Avg_Wind row) 4
  && gtb (Avg_Temp row) 0 && isN (Military row) && isN (Nat_Parks row)
  && isN (Critical row) && isN (Historical row) && isN (Mining row)
  && isN (Wild_Refug row) && isN (Trib_Land row).

(** The cumulative counts of the loop of lines 582-678. *)
Definition allCellsProhibited (surface : list SurfaceRow) : nat :=
  List.length (filter prohibitedByDefault surface).
Definition turbineCellsProhibited (surface : list SurfaceRow) : nat :=
  List.length (filter (fun row => prohibitedByDefault row && isY (Wind_Turb row))
                      surface).
Definition allCellsAllowed (surface : list SurfaceRow) : nat :=
  List.length (filter allowedByDefault surface).
Definition turbineCellsAllowed (surface : list SurfaceRow) : nat :=
  List.length (filter (fun row => allowedByDefault row && isY (Wind_Turb row))
                      surface).
Definition windFarmCount (surface : list SurfaceRow) : nat :=
  List.length (filter (fun row => isY (Wind_Turb row)) surface).

(** The values and switches the constraint functions leave behind:
    [airportConstraint.Value], ..., [roadMinConstraint.YesOrNo], ...  Here
    [Y] answers "do you wish to set this constraint?": the constraint is in
    use. *)
Record Settings : Type := mkSettings {
  airportValue : Q;
  plantValue : Q;
  hospValue : Q;
  schValue : Q;
  roadMinYesOrNo : YesNo;
  roadMinValue : Q;
  roadMaxYesOrNo : YesNo;
  roadMaxValue : Q;
  transMinYesOrNo : YesNo;
  transMinValue : Q;
  transMaxYesOrNo : YesNo;
  transMaxValue : Q;
  elevatValue : Q;
  windValue : Q;
  tempValue : Q
}.

(** The default constraints (lines 795-852) and their cursor list (lines
    855-858). *)
Definition defaultSettings : Settings :=
  mkSettings 2500 10000 2500 2500 Y 500 Y 10000 Y 250 Y 10000 2000 4 0.

Definition defaultCursorList : list string :=
  ["Near_Air"; "Near_Plant"; "Near_Hosp"; "Near_Sch"; "Near_Roads";
   "Near_Roads"; "Near_Trans"; "Near_Trans"; "Avg_Elevat"; "Avg_Wind";
   "Avg_Temp"; "Military"; "Nat_Parks"; "Critical"; "Historical";
   "Mining"; "Wild_Refug"; "Trib_Land"]%string.

Definition switchedOn (answer : YesNo) : bool :=
  match answer with
  | Y => true
  | N => false
  end.

(** Whether the field [name] of the cursor list makes the row violate a
    constraint: the tests of the body of [for i in range(len(cursorList))]
    that write 0. *)
Definition violates (S : Settings) (name : string) (row : SurfaceRow) : bool :=
  (String.eqb name "Near_Air" && leb (Near_Air row) (airportValue S))
  || (String.eqb name "Near_Plant" && leb (Near_Plant row) (plantValue S))
  || (String.eqb name "Near_Hosp" && leb (Near_Hosp row) (hospValue S))
  || (String.eqb name "Near_Sch" && leb (Near_Sch row) (schValue S))
  || (String.eqb name "Near_Roads" && switchedOn (roadMinYesOrNo S)
      && leb (Near_Roads row) (roadMinValue S))
  || (String.eqb name "Near_Roads" && switchedOn (roadMaxYesOrNo S)
      && geb (Near_Roads row) (roadMaxValue S))
  || (String.eqb name "Near_Trans" && switchedOn (transMinYesOrNo S)
      && leb (Near_Trans row) (transMinValue S))
  || (String.eqb name "Near_Trans" && switchedOn (transMaxYesOrNo S)
      && geb (Near_Trans row) (transMaxValue S))
  || (String.eqb name "Avg_Elevat" && geb (Avg_Elevat row) (elevatValue S))
  || (String.eqb name "Avg_Wind" && leb (Avg_Wind row) (windValue S))
  || (String.eqb name "Avg_Temp" && leb (Avg_Temp row) (tempValue S))
  || (String.eqb name "Military" && isY (Military row))
  || (String.eqb name "Nat_Parks" && isY (Nat_Parks row))
  || (String.eqb name "Critical" && isY (Critical row))
  || (String.eqb name "Historical" && isY (Historical row))
  || (String.eqb name "Mining" && isY (Mining row))
  || (String.eqb name "Wild_Refug" && isY (Wild_Refug row))
  || (String.eqb name "Trib_Land" && isY (Trib_Land row)).

(** One turn of [for i in range(len(cursorList))] on the last entry of the
    cursor row, the field "Constraint" ([None] is NULL): a violated
    constraint writes 0, and the entry "Constraint" itself writes 1 where
    the field is still NULL. *)
Definition checkField (S : Settings) (row : SurfaceRow)
                      (constraint : option Q) (name : string) : option Q :=
  let constraint := if violates S name row then Some 0%Q else constraint in
  if String.eqb name "Constraint" then
    match constraint with
    | None => Some 1%Q
    | Some v => Some v
    end
  else constraint.

(** [constrainedYesOrNo()] for one row of the cursor over [cursorList],
    which ends with the field "Constraint", added empty. *)
Definition constrainedYesOrNo (S : Settings) (cursorList : list string)
                              (row : SurfaceRow) : option Q :=
  fold_left (checkField S row) (cursorList ++ ["Constraint"%string]) None.

(** [totalConstrained()]: the rows with 0 in "Constraint", the other rows,
    and all rows. *)
Definition totalConstrained (constraintField : list (option Q))
  : nat * nat * nat :=
  fold_left
    (fun '(constrainedCount, unconstrainedCount, total) v =>
       match v with
       | Some q =>
           if Qeq_bool q 0
           then (S constrainedCount, unconstrainedCount, S total)
           else (constrainedCount, S unconstrainedCount, S total)
       | None => (constrainedCount, S unconstrainedCount, S total)
       end)
    constraintField (0, 0, 0)%nat.

(** The categorical fields of a row hold "Y" or "N". *)
Definition categorical (row : SurfaceRow) : Prop :=
  Forall (fun v => v = "Y"%string \/ v = "N"%string)
         [Military row; Nat_Parks row; Critical row; Historical row;
          Mining row; Wild_Refug row; Trib_Land row].

End Constraints.

(** ** Gained capacity and scenarios (lines 2048-3189) *)

Module Scenarios.

(** [ceil(capacity / oneFarmCapacity)], the number of wind farms gained in
    each time step. *)
Definition gainedWindFarms (capacity oneFarmCapacity : Q) : Z :=
  Qceiling (capacity / oneFarmCapacity).

(** The capacity of one wind farm by percentile (lines 2048-2057). *)
Definition oneFarmCapacity (capacity : string) : option Q :=
  if String.eqb capacity "100" then Some 525%Q
  else if String.eqb capacity "80" then Some 202%Q
  else if String.eqb capacity "60" then Some 150%Q
  else if String.eqb capacity "40" then Some 90%Q
  else if String.eqb capacity "20" then Some 30%Q
  else None.

(** The rows the clause "OBJECTID <= gridCellsChanged" selects of a table
    whose OBJECTID starts at 1. *)
Definition selectedRows (gridCellsChanged : Z) : nat := Z.to_nat gridCellsChanged.

(** [predictors.index(code)], where [code in predictors]. *)
Fixpoint indexOf (code : string) (predictors : list string) : option nat :=
  match predictors with
  | [] => None
  | p :: rest =>
      if String.eqb p code then Some 0%nat
      else option_map S (indexOf code rest)
  end.

(** [changes[index] = v]. *)
Fixpoint assign (index : nat) (v : Q) (changes : list Q) : result (list Q) :=
  match changes, index with
  | [], _ => Raise IndexError
  | _ :: rest, O => Ok (v :: rest)
  | c :: rest, S index' => rest' <- assign index' v rest ;; Ok (c :: rest')
  end.

(** One entry of a named scenario for one configuration:
    [if code in predictors: index = predictors.index(code);
    coefficientChanges[index] = v]. *)
Definition setChange (predictors : list string) (changes : list Q)
                     (entry : string * Q) : result (list Q) :=
  match indexOf (fst entry) predictors with
  | Some index => assign index (snd entry) changes
  | None => Ok changes
  end.

(** The entries of a scenario, one after the other, starting from the
    list of zeros [[0] * len(dfCoefficients)]. *)
Fixpoint applyEntries (predictors : list string) (changes : list Q)
                      (entries : list (string * Q)) : result (list Q) :=
  match entries with
  | [] => Ok changes
  | entry :: rest =>
      changes' <- setChange predictors changes entry ;;
      applyEntries predictors changes' rest
  end.

Definition zeros (predictors : list string) : list Q :=
  repeat 0%Q (List.length predictors).

(** The entries of the named scenarios for the configurations "Full",
    "No_Wind" and "Reduced", in percent per time step (lines 2427-3169).
    For "Wind_Only" the code has the entry of "Avg_Wind" only. *)
Definition climateScenario : list (string * Q) :=
  [("Avg_Wind", 10); ("Avg_Temp", 10); ("Bat_Count", -10 # 1);
   ("Bird_Count", -10 # 1)]%string%Q.
Definition demographicScenario : list (string * Q) :=
  [("Avg_25", 10); ("Hisp_15_19", 10); ("Fem_15_19", 10);
   ("Whit_15_19", -10 # 1)]%string%Q.
Definition politicsScenario : list (string * Q) :=
  [("Dem_Wins", 10); ("supp_2018", 10)]%string%Q.
Definition economiesScenario : list (string * Q) :=
  [("Type_15_19", 10); ("ISO_YN", 10); ("Dens_15_19", 10);
   ("Plant_Year", 10); ("Farm_Year", 10); ("Unem_15_19", -10 # 1)]%string%Q.
Definition infrastructureScenario : list (string * Q) :=
  [("Near_Roads", 10); ("Near_Trans", 10)]%string%Q.
Definition naturalCulturalScenario : list (string * Q) :=
  [("Undev_Land", -10 # 1); ("Critical", -10 # 1); ("Historical", -10 # 1);
   ("Nat_Parks", -10 # 1); ("Trib_Land", -10 # 1);
   ("Wild_Refug", -10 # 1)]%string%Q.
Definition urbanScenario : list (string * Q) :=
  [("Near_Air", 10); ("Near_Hosp", 10); ("Near_Plant", 10); ("Near_Sch", 10);
   ("Mining", -10 # 1); ("Military", -10 # 1)]%string%Q.
Definition nationwideScenario : list (string * Q) :=
  [("Gree_Lobbs", 10); ("Interconn", 10); ("In_Tax_Cre", 10);
   ("Net_Meter", 10); ("Tax_Prop", 10); ("Renew_Port", 10);
   ("Renew_Targ", 10); ("Tax_Sale", 10); ("Numb_Incen", 10);
   ("Numb_Pols", 10); ("Cost_15_19", -10 # 1); ("Farm_15_19", -10 # 1);
   ("Foss_Lobbs", -10 # 1); ("Rep_Wins", -10 # 1);
   ("Prop_15_19", -10 # 1)]%string%Q.

(** The user's answers to the questions about the named scenarios. *)
Record Answers : Type := mkAnswers {
  climate : YesNo;
  demographics : YesNo;
  politics : YesNo;
  economies : YesNo;
  infrastructure : YesNo;
  naturalCultural : YesNo;
  urban : YesNo;
  nationwide : YesNo      (* asked for the CONUS only *)
}.

Definition ifYes (answer : YesNo) (entries : list (string * Q))
  : list (string * Q) :=
  match answer with
  | Y => entries
  | N => []
  end.

(** The entries that are applied, in the order of the questions. *)
Definition selectedEntries (studyArea : string) (a : Answers)
  : list (string * Q) :=
  ifYes (climate a) climateScenario
  ++ ifYes (demographics a) demographicScenario
  ++ ifYes (politics a) politicsScenario
  ++ ifYes (economies a) economiesScenario
  ++ ifYes (infrastructure a) infrastructureScenario
  ++ ifYes (naturalCultural a) naturalCulturalScenario
  ++ ifYes (urban a) urbanScenario
  ++ (if String.eqb studyArea "CONUS"
      then ifYes (nationwide a) nationwideScenario else []).

(** [coefficientChanges<X>] after the questions, asked when neither the
    DEFAULT nor the CUSTOM scenario was chosen, for a configuration with
    the predictor codes [predictors] ("Full", "No_Wind" or "Reduced"). *)
Definition namedScenarioChanges (studyArea : string) (a : Answers)
                                (predictors : list string) : result (list Q) :=
  applyEntries predictors (zeros predictors) (selectedEntries studyArea a).

(** The CUSTOM scenario for one configuration (lines 2304-2389): the
    predictors of [predictorList] are asked in turn, and the percentage
    answered (0 for the answer "N") is appended where the predictor is one
    of the configuration's. *)
Fixpoint customScenario (predictorList : list string) (answers : list Q)
                        (dfPredictors : list string) : list Q :=
  match predictorList, answers with
  | name :: names, percent :: rest =>
      if existsb (String.eqb name) dfPredictors
      then percent :: customScenario names rest dfPredictors
      else customScenario names rest dfPredictors
  | _, _ => []
  end.

(** [dfCoeffs[name] = values] (lines 3261-3263) on a frame whose index has
    [rows] labels: pandas takes the index from the values where the frame
    has no row yet, and refuses values of another length. *)
Definition assignColumn {A : Type} (rows : nat) (values : list A)
  : result nat :=
  if (rows =? 0)%nat then Ok (List.length values)
  else if (List.length values =? rows)%nat then Ok rows
  else Raise ValueError.

(** The frame [dfCoeffs] of one configuration: the columns "Predictors",
    "Coeff_Change_(%)" and "Coeff_2020" are assigned in turn, then the
    coefficient iteration adds its six columns.  Gives the coefficient
    columns. *)
Definition dfCoeffsFrame (predictors : list string) (changes c2020 : list Q)
  : result (list (list Q)) :=
  rows <- assignColumn 0 predictors ;;
  rows <- assignColumn rows changes ;;
  rows <- assignColumn rows c2020 ;;
  Ok (CellularAutomaton.coefficientColumns changes c2020).

End Scenarios.

(** ** Vocabulary of the specification *)

Module Spec.

(** Constraints or neighborhood effects are enabled when the user did not
    switch them off. *)
Definition enabled (switchedOff : YesNo) : bool :=
  match switchedOff with
  | N => true
  | Y => false
  end.

(** The neighborhood effect factor a cell carries in the time step [f]: the
    factor of the initial scan in the first time step, the updated one
    afterwards. *)
Definition currentFactor (f : nat) (row : Row) : option Q :=
  if String.eqb (CellularAutomaton.timeStep f) "2025"
  then Some (Neighborhood row) else Neighb_Update row.

(** The cold-start exception: the first time step with fewer than two grid
    cells that contain a wind farm. *)
Definition coldStart (f count : nat) : bool :=
  String.eqb (CellularAutomaton.timeStep f) "2025" && (count <? 2)%nat.

(** The composite score of the specification's table, from the eligibility
    [e], the neighborhood effect factor [n] and the probability [p]. *)
Definition tableScore (constraintsOn neighborhoodOn : bool) (e n p : R) : R :=
  match constraintsOn, neighborhoodOn with
  | true, true => p
  | true, false => (e * p)%R
  | false, true => (n * p)%R
  | false, false => (e * n * p)%R
  end.

(** What the conversion of grid cells reads and writes of a row. *)
Definition status (row : Row) : Z * string * Q :=
  (TARGET_FID row, Wind_Turb_Fut row, Constraint row).

(** The status of a cell after the cells of [cellNoList] were converted
    under the label [label]. *)
Definition afterConversion (label : string) (cellNoList : list Z)
                           (s : Z * string * Q) : Z * string * Q :=
  (fst (fst s),
   if inList (fst (fst s)) cellNoList then label else snd (fst s),
   snd s).

(** A cell keeps its number and, once it contains a wind farm, does not
    return to "N". *)
Definition staysConverted (row row' : Row) : Prop :=
  TARGET_FID row' = TARGET_FID row /\
  (Wind_Turb_Fut row <> "N"%string -> Wind_Turb_Fut row' <> "N"%string) /\
  (containsY (Wind_Turb_Fut row) = true ->
   containsY (Wind_Turb_Fut row') = true).

(** The composite score [CalculateField] writes for a row of the gridded
    surface [table] in the time step [f]. *)
Definition scoreOf (ConstYesNo NeighYesNo : YesNo) (intercept : Q)
                   (coeff : list Q) (count f : nat) (table : list Row)
                   (row : Row) : result R :=
  CellularAutomaton.compositeScore ConstYesNo NeighYesNo f count
    (set_Probab (CellularAutomaton.prob intercept coeff
                   (CellularAutomaton.predictorCount table)
                   (predictorValues row))
                row).

(** Not yet converted, and eligible. *)
Definition unconverted (row : Row) : bool :=
  String.eqb (Wind_Turb_Fut row) "N".

Definition eligible (row : Row) : bool :=
  negb (Qeq_bool (Constraint row) 0).


Definition eligibleUnconverted (table : list Row) : list Row :=
  filter (fun row => unconverted row && eligible row) table.

(** The cells converted between two states of the gridded surface: not yet
    converted before, converted after. *)
Definition newlyConverted (before after : list Row) : list (Row * Row) :=
  filter (fun p => unconverted (fst p) && negb (unconverted (snd p)))
         (combine before after).

(** [convertedNeighborCount / totalNeighborCount] over the cell's own full
    neighbor set: all other cells of the grid within the search radius. *)
Definition fullNeighborSet (centerIn : Z -> Z -> bool) (table : list Row)
                           (gridCell : Z) : list Row :=
  filter (fun row => centerIn (TARGET_FID row) gridCell
                     && negb (TARGET_FID row =? gridCell)%Z)
         table.

Definition fullFactor (centerIn : Z -> Z -> bool) (table : list Row)
                      (gridCell : Z) : Q :=
  let neighbors := fullNeighborSet centerIn table gridCell in
  (inject_Z (Z.of_nat (List.length
                         (filter (fun row => containsY (Wind_Turb_Fut row))
                                 neighbors)))
   / inject_Z (Z.of_nat (List.length neighbors)))%Q.

End Spec.

(** ** Example data *)

Module Examples.

(** A row of [projectedCells], of which the disagreement reads the cell
    number and the final classification. *)
Definition classifiedCell (cellNo : Z) (classification : string) : Row :=
  mkRow cellNo "N" 1%Q 0%Q None 0%R 0%R classification [].

(** A grid cell without a wind farm that violates no constraint, half of
    whose neighbors contain a wind farm, with probability 1/2. *)
Definition halfwayCell : Row :=
  mkRow 7 "N" 1%Q (1 # 2)%Q (Some (1 # 2)%Q) (1 / 2)%R 0%R "N" [].

(** Grid cells in a row: a cell has its center within the search distance
    of the cell before and the cell after it. *)
Definition nextTo (a b : Z) : bool := (Z.abs (a - b) <=? 1)%Z.

(** Cells 1 and 2 next to each other, each with a wind farm; cell 4 apart
    from them (an island), without one.  The neighborhood effect factors
    are those of the initial scan. *)
Definition threeCells : list Row :=
  ConstraintNeighborhood.neighborhoodEffects nextTo
    [mkRow 1 "Y" 1%Q 0%Q None 0%R 0%R "" [1 # 2];
     mkRow 2 "Y" 1%Q 0%Q None 0%R 0%R "" [-1 # 2];
     mkRow 4 "N" 1%Q 0%Q None 0%R 0%R "" [3 # 2]]%Q.

(** The coefficient columns of a configuration with one predictor. *)
Definition oneCoefficient : list (list Q) :=
  CellularAutomaton.coefficientColumns [10 # 1] [2 # 1].

(** Cells 1 to 4 in a row, none with a wind farm; only cell 2 violates no
    constraint.  The neighborhood effect factors are those of the initial
    scan. *)
Definition fourCells : list Row :=
  ConstraintNeighborhood.neighborhoodEffects nextTo
    [mkRow 1 "N" 0%Q 0%Q None 0%R 0%R "" [1 # 2];
     mkRow 2 "N" 1%Q 0%Q None 0%R 0%R "" [1 # 2];
     mkRow 3 "N" 0%Q 0%Q None 0%R 0%R "" [1 # 2];
     mkRow 4 "N" 0%Q 0%Q None 0%R 0%R "" [1 # 2]]%Q.

(** [fourCells] after the first probability calculation and
    [CalculateField] under the cold-start rule with the constraints in
    use: every cell has the probability [p], and the score
    "!Constraint!*!Probab!". *)
Definition scoredFour (p : R) : list Row :=
  map (fun row =>
         set_Probab_year (Q2R (Constraint row) * p)%R (set_Probab p row))
      (CellularAutomaton.initialise N fourCells).

(** Two cells without a wind farm in the time step 2030: cell 1 violates
    a constraint; cell 2 violates none and has no neighbor with a wind
    farm. *)
Definition tiedCells : list Row :=
  [mkRow 1 "N" 0%Q 1%Q (Some 1%Q) 0%R 0%R "N" [1 # 2];
   mkRow 2 "N" 1%Q 0%Q (Some 0%Q) 0%R 0%R "N" [1 # 2]]%Q.

Definition scoredTied (p : R) : list Row :=
  map (fun row =>
         set_Probab_year
           (Q2R (Constraint row)
            * Q2R match Neighb_Update row with Some v => v | None => 0%Q end
            * p)%R
           (set_Probab p row))
      tiedCells.

End Examples.

(** ** Sample grid cells for the constraints *)

Module Samples.
Import Constraints.

(** A grid cell in the open that invalidates no default constraint. *)
Definition openField : SurfaceRow :=
  mkSurfaceRow "N" 5000 20000 5000 5000 1000 1000 500 6 10
               "N" "N" "N" "N" "N" "N" "N".

(** A grid cell with a wind farm 1000 m from an airport. *)
Definition nearAirport : SurfaceRow :=
  mkSurfaceRow "Y" 1000 20000 5000 5000 1000 1000 500 6 10
               "N" "N" "N" "N" "N" "N" "N".

(** Cells 1, 2 and 3 in a row: cells 1 and 2 with a wind farm, cell 3
    without one; no cell violates a constraint.  The neighborhood effect
    factors are those of the initial scan. *)
Definition rowOfThree : list Row :=
  ConstraintNeighborhood.neighborhoodEffects Examples.nextTo
    [mkRow 1 "Y" 1%Q 0%Q None 0%R 0%R "" [1 # 2];
     mkRow 2 "Y" 1%Q 0%Q None 0%R 0%R "" [1 # 2];
     mkRow 3 "N" 1%Q 0%Q None 0%R 0%R "" [3 # 2]]%Q.

(** Four cells in a row without a wind farm, listed in the order 2, 1, 3,
    4: cell 2 violates a constraint, the others violate none; cell 3 has
    the highest predictor value.  The neighborhood effect factors are
    those of the initial scan. *)
Definition contestedCells : list Row :=
  ConstraintNeighborhood.neighborhoodEffects Examples.nextTo
    [mkRow 2 "N" 0%Q 0%Q None 0%R 0%R "" [1 # 2];
     mkRow 1 "N" 1%Q 0%Q None 0%R 0%R "" [1 # 2];
     mkRow 3 "N" 1%Q 0%Q None 0%R 0%R "" [3 # 2];
     mkRow 4 "N" 1%Q 0%Q None 0%R 0%R "" [1 # 2]]%Q.

(** A fitted configuration with one predictor, under the DEFAULT
    scenario. *)
Definition contestedModel : CellularAutomaton.FittedModel :=
  CellularAutomaton.mkFitted [2 # 1] [0] ["Avg_Wind"%string] (-4 # 1).

End Samples.

(** * Properties *)

Import Examples.

Import CellularAutomaton.

(** ** Coefficient iteration *)

Section CoefficientFacts.
Local Open Scope Q_scope.

Lemma Qgtb_true (x y : Q) : Qgtb x y = true <-> y < x.
Proof.
  unfold Qgtb. rewrite negb_true_iff.
  destruct (Qle_bool x y) eqn:E.
  - apply Qle_bool_iff in E. split; [discriminate|].
    intros H. exfalso. apply (Qlt_not_le _ _ H E).
  - split; [|reflexivity]. intros _. apply Qnot_le_lt. intros H.
    apply Qle_bool_iff in H. congruence.
Qed.

Lemma Qgtb_false (x y : Q) : Qgtb x y = false <-> x <= y.
Proof.
  unfold Qgtb. rewrite negb_false_iff. apply Qle_bool_iff.
Qed.

Lemma nth_map_seq {A : Type} (g : nat -> A) (n i : nat) (d : A) :
  (i < n)%nat -> nth i (map g (seq 0 n)) d = g i.
Proof.
  intros H. rewrite (nth_indep _ d (g 0%nat)) by (now rewrite length_map, length_seq).
  rewrite (map_nth g (seq 0 n) 0%nat i). now rewrite seq_nth.
Qed.

(** The seven columns, one application of [newCoefficients] apart. *)
Lemma coefficientColumns_iter (changes c2020 : list Q) :
  coefficientColumns changes c2020 =
  map (fun t => Nat.iter t (newCoefficients changes c2020) c2020) (seq 0 7).
Proof. reflexivity. Qed.

Lemma coeffAt_0 (changes c2020 : list Q) (i : nat) :
  coeffAt changes c2020 0 i = nth i c2020 0.
Proof. reflexivity. Qed.

Lemma coeffAt_S (changes c2020 : list Q) (t i : nat) :
  (t < 6)%nat -> (i < List.length c2020)%nat ->
  coeffAt changes c2020 (S t) i =
  newCoefficient (nth i changes 0) (coeffAt changes c2020 t i).
Proof.
  intros Ht Hi. unfold coeffAt. rewrite coefficientColumns_iter.
  rewrite !nth_map_seq by lia.
  change (Nat.iter (S t) (newCoefficients changes c2020) c2020)
    with (newCoefficients changes c2020
            (Nat.iter t (newCoefficients changes c2020) c2020)).
  unfold newCoefficients at 1.
  now rewrite nth_map_seq.
Qed.

End CoefficientFacts.

Section CoefficientEvolution.
Local Open Scope Q_scope.

Lemma Qabs_percent (c delta : Q) :
  Qabs (c * (delta / 100)) == Qabs c * Qabs delta / 100.
Proof.
  unfold Qdiv. rewrite !Qabs_Qmult.
  change (Qabs (/ 100)) with (/ 100). ring.
Qed.

Lemma newCoefficient_zero (delta c : Q) :
  delta == 0 -> newCoefficient delta c = c.
Proof.
  intros H. unfold newCoefficient.
  assert (E1 : Qgtb delta 0 = false) by (apply Qgtb_false; rewrite H; apply Qle_refl).
  assert (E2 : Qgtb 0 delta = false) by (apply Qgtb_false; rewrite H; apply Qle_refl).
  now rewrite E1, E2.
Qed.

Lemma newCoefficient_positive (delta c : Q) :
  0 < delta -> newCoefficient delta c == c + Qabs c * delta / 100.
Proof.
  intros H. unfold newCoefficient.
  assert (E : Qgtb delta 0 = true) by now apply Qgtb_true.
  rewrite E, Qabs_percent, (Qabs_pos delta) by now apply Qlt_le_weak.
  reflexivity.
Qed.

Lemma newCoefficient_negative (delta c : Q) :
  delta < 0 -> newCoefficient delta c == c - Qabs c * Qabs delta / 100.
Proof.
  intros H. unfold newCoefficient.
  assert (E1 : Qgtb delta 0 = false) by (apply Qgtb_false; now apply Qlt_le_weak).
  assert (E2 : Qgtb 0 delta = true) by now apply Qgtb_true.
  rewrite E1, E2, Qabs_percent. reflexivity.
Qed.

Lemma coeffAt_constant (changes c2020 : list Q) (t i : nat) :
  (t <= 6)%nat -> (i < List.length c2020)%nat -> nth i changes 0 == 0 ->
  coeffAt changes c2020 t i = coeffAt changes c2020 0 i.
Proof.
  intros Ht Hi H0. induction t as [|t IH]; [reflexivity|].
  rewrite coeffAt_S, newCoefficient_zero by (assumption || lia).
  apply IH. lia.
Qed.

(** C2, as the specification words it, fails for a negative delta: from
    [c0 = 5] with [delta = -10] the code gives [c1 = 4.5], the formula
    [c0 - |c0| * delta / 100] gives [5.5]. *)
Lemma coefficient_negative_delta_counterexample :
  let changes := [-10 # 1] in
  let c2020 := [5 # 1] in
  nth 0 changes 0 < 0 /\
  coeffAt changes c2020 1 0 == 45 # 10 /\
  specCoefficientStep (nth 0 changes 0) (coeffAt changes c2020 0 0) == 55 # 10 /\
  ~ coeffAt changes c2020 1 0
    == specCoefficientStep (nth 0 changes 0) (coeffAt changes c2020 0 0).
Proof.
  repeat split; try (vm_compute; congruence).
Qed.

(** C2 (amended): the coefficient iteration gives, for every predictor [i]
    with base coefficient [c0] and percentage change [delta], the sequence
    [c0, ..., c6] with [ct = c0] for all [t] in 1..6 when [delta = 0],
    [ct = c(t-1) + |c(t-1)| * delta / 100] when [delta > 0], and
    [ct = c(t-1) - |c(t-1)| * |delta| / 100] when [delta < 0]; and
    [c0 = -5] with [delta = 10] yields [-4.5], [-4.05], [-3.645] (exactly,
    so within 1e-9). *)
Theorem coefficient_evolution (changes c2020 : list Q) (t i : nat) :
  (t < 6)%nat -> (i < List.length c2020)%nat ->
  let delta := nth i changes 0 in
  let c := coeffAt changes c2020 in
  c 0%nat i = nth i c2020 0 /\
  (delta == 0 -> c (S t) i = c 0%nat i) /\
  (0 < delta -> c (S t) i == c t i + Qabs (c t i) * delta / 100) /\
  (delta < 0 -> c (S t) i == c t i - Qabs (c t i) * Qabs delta / 100) /\
  (let e := coeffAt [10 # 1] [-5 # 1] in
   Qabs (e 1%nat 0%nat - (-45 # 10)) <= 1 # 1000000000 /\
   Qabs (e 2%nat 0%nat - (-405 # 100)) <= 1 # 1000000000 /\
   Qabs (e 3%nat 0%nat - (-3645 # 1000)) <= 1 # 1000000000).
Proof.
  intros Ht Hi delta c. split; [reflexivity|]. split; [|split; [|split]].
  - intros H. apply coeffAt_constant; [lia|assumption|assumption].
  - intros H. unfold c. rewrite coeffAt_S by assumption.
    now apply newCoefficient_positive.
  - intros H. unfold c. rewrite coeffAt_S by assumption.
    now apply newCoefficient_negative.
  - repeat split; vm_compute; congruence.
Qed.

Lemma coefficient_evolution_witness :
  let changes := [-10 # 1; 0; 10 # 1] in
  let c2020 := [5 # 1; 2 # 1; -5 # 1] in
  nth 0 changes 0 < 0 /\
  coeffAt changes c2020 3 0
  == coeffAt changes c2020 2 0
     - Qabs (coeffAt changes c2020 2 0) * Qabs (nth 0 changes 0) / 100.
Proof.
  split; [reflexivity|].
  apply (coefficient_evolution [-10 # 1; 0; 10 # 1] [5 # 1; 2 # 1; -5 # 1] 2 0);
    [simpl; lia | simpl; lia | reflexivity].
Defined.

End CoefficientEvolution.

(** ** The intercept *)

Section Intercept.







End Intercept.

(** ** Quantity and allocation disagreement *)

Section DisagreementFacts.

(** The last column of the transposed table is [bottomRow]. *)
Lemma cell_7_bottom (projectedNull projectedOther : list Row) (k : nat) :
  (k < 7)%nat ->
  cell (counts projectedNull) (counts projectedOther) k 7
  = bottom (counts projectedNull) (counts projectedOther) k.
Proof.
  intros Hk.
  do 7 (destruct k as [|k]; [reflexivity|]). lia.
Qed.

Lemma quantDis_zero (projectedNull projectedOther : list Row) :
  quantDis (counts projectedNull) (counts projectedOther) = (0 # 2)%Q.
Proof.
  unfold quantDis.
  rewrite !cell_7_bottom by lia. rewrite !Z.sub_diag. reflexivity.
Qed.

(** C10: on every contingency table the primary quantity disagreement
    [quantDis] is 0, each of its seven terms being the difference of
    [bottomRow[k]] with itself; so whenever [quantDisStar] is not 0 the
    branch [quantDis != quantDisStar] is taken, [qFinal] is
    [quantDisStar] and [aFinal] is [absoDis] plus [quantDisStar]. *)
Theorem primary_quantity_disagreement_is_zero
        (projectedNull projectedOther : list Row) :
  let countsNull := counts projectedNull in
  let countsOther := counts projectedOther in
  (forall k, (k < 7)%nat ->
             cell countsNull countsOther k 7 = bottom countsNull countsOther k) /\
  (quantDis countsNull countsOther == 0)%Q /\
  (quantDisStar countsNull countsOther <> 0%Z ->
   (qFinal countsNull countsOther
    == inject_Z (quantDisStar countsNull countsOther))%Q /\
   (aFinal countsNull countsOther
    == absoDis countsNull countsOther
       + inject_Z (quantDisStar countsNull countsOther))%Q).
Proof.
  intros countsNull countsOther.
  split; [intros k Hk; now apply cell_7_bottom|].
  split; [unfold countsNull, countsOther; now rewrite quantDis_zero|].
  intros Hstar. unfold qFinal, aFinal, countsNull, countsOther.
  rewrite quantDis_zero.
  set (star := quantDisStar _ _) in *.
  assert (Hneq : Qeq_bool (0 # 2) (inject_Z star) = false).
  { unfold Qeq_bool, inject_Z. cbn [Qnum Qden]. apply Z.eqb_neq. lia. }
  rewrite Hneq. cbn [negb]. split; [reflexivity|].
  assert (Hpos : (0 <= star)%Z) by (unfold star, quantDisStar; apply Z.abs_nonneg).
  assert (Habs : (Qabs ((0 # 2) - inject_Z star) == inject_Z star)%Q).
  { unfold Qabs, Qminus, Qplus, Qopp, inject_Z, Qeq. cbn [Qnum Qden].
    lia. }
  now rewrite Habs.
Qed.

Lemma primary_quantity_disagreement_is_zero_witness :
  let projectedNull := [classifiedCell 1 "Y (2050)"; classifiedCell 2 "N"] in
  let projectedOther := [classifiedCell 1 "N"; classifiedCell 2 "N"] in
  (qFinal (counts projectedNull) (counts projectedOther) == 1)%Q /\
  (aFinal (counts projectedNull) (counts projectedOther)
   == absoDis (counts projectedNull) (counts projectedOther) + 1)%Q.
Proof.
  apply (primary_quantity_disagreement_is_zero
           [classifiedCell 1 "Y (2050)"; classifiedCell 2 "N"]
           [classifiedCell 1 "N"; classifiedCell 2 "N"]).
  vm_compute. discriminate.
Defined.

End DisagreementFacts.

(** ** Probability and composite score *)

Section ScoreFacts.

Lemma Q2R_0 : Q2R 0 = 0%R.
Proof. unfold Q2R. simpl. lra. Qed.

Lemma Q2R_1 : Q2R 1 = 1%R.
Proof. unfold Q2R. simpl. lra. Qed.

Lemma Q2R_unit (q : Q) : (0 <= q <= 1)%Q -> (0 <= Q2R q <= 1)%R.
Proof.
  intros [H0 H1]. rewrite <- Q2R_0, <- Q2R_1. split; now apply Qle_Rle.
Qed.

Lemma prob_bounds (intercept : Q) (coeff : list Q) (n : nat) (cell : list Q) :
  (0 < prob intercept coeff n cell < 1)%R.
Proof.
  unfold prob.
  set (z := Q2R _).
  assert (He : (0 < exp (- z))%R) by apply exp_pos.
  split.
  - apply Rdiv_lt_0_compat; lra.
  - apply (Rmult_lt_reg_r (1 + exp (- z))); [lra|].
    unfold Rdiv. rewrite Rmult_assoc, Rinv_l by lra. lra.
Qed.

(** A larger linear predictor gives a larger probability. *)
Lemma prob_rises (intercept : Q) (coeff : list Q) (n : nat)
                 (cell1 cell2 : list Q) :
  (sum (multiply (firstn n coeff) (firstn n cell1))
   < sum (multiply (firstn n coeff) (firstn n cell2)))%Q ->
  (prob intercept coeff n cell1 < prob intercept coeff n cell2)%R.
Proof.
  intros H. unfold prob.
  set (z1 := Q2R _). set (z2 := Q2R _).
  assert (Hz : (z1 < z2)%R).
  { unfold z1, z2. apply Qlt_Rlt. now apply Qplus_lt_r. }
  assert (He : (exp (- z2) < exp (- z1))%R) by (apply exp_increasing; lra).
  pose proof (exp_pos (- z1)). pose proof (exp_pos (- z2)).
  unfold Rdiv. rewrite !Rmult_1_l.
  apply Rinv_lt_contravar; [|lra].
  apply Rmult_lt_0_compat; lra.
Qed.

(** C1, as the specification words it, fails when both constraints and
    neighborhood effects are enabled: in the time step 2030 the score of
    [halfwayCell] is [1 * 1/2 * 1/2], not its probability [1/2]. *)
Lemma composite_score_both_enabled_counterexample :
  let ConstYesNo := N in
  let NeighYesNo := N in
  Spec.enabled ConstYesNo = true /\ Spec.enabled NeighYesNo = true /\
  Spec.coldStart 1 2 = false /\
  compositeScore ConstYesNo NeighYesNo 1 2 halfwayCell
  = Ok (Q2R 1 * Q2R (1 # 2) * (1 / 2))%R /\
  compositeScore ConstYesNo NeighYesNo 1 2 halfwayCell
  <> Ok (Spec.tableScore (Spec.enabled ConstYesNo) (Spec.enabled NeighYesNo)
                         (Q2R (Constraint halfwayCell)) (Q2R (1 # 2))
                         (Probab halfwayCell)).
Proof.
  repeat split. cbn. intros H. injection H as H.
  rewrite Q2R_1 in H. unfold Q2R in H. simpl in H. lra.
Qed.

(** C1 (amended): in every time step outside the cold-start exception, the
    composite score written for a cell with eligibility [e], neighborhood
    effect factor [n] and probability [p] is [e * n * p] when both
    constraints and neighborhood effects are enabled, [e * p] when
    constraints are enabled and neighborhood effects disabled, [n * p] when
    constraints are disabled and neighborhood effects enabled, and [p]
    when both are disabled.  The factor [n] is read only where the
    neighborhood effects are enabled: with them disabled the score is
    written for every row, also after 2025, when "Neighb_Update" does not
    exist. *)
Theorem composite_score_table (ConstYesNo NeighYesNo : YesNo) (f count : nat)
        (row : Row) (n : Q) :
  Spec.coldStart f count = false ->
  (Spec.enabled NeighYesNo = true -> Spec.currentFactor f row = Some n) ->
  compositeScore ConstYesNo NeighYesNo f count row
  = Ok (match Spec.enabled ConstYesNo, Spec.enabled NeighYesNo with
        | true, true => Q2R (Constraint row) * Q2R n * Probab row
        | true, false => Q2R (Constraint row) * Probab row
        | false, true => Q2R n * Probab row
        | false, false => Probab row
        end)%R.
Proof.
  unfold Spec.coldStart, Spec.currentFactor, compositeScore.
  intros Hcold Hn. rewrite Hcold.
  destruct (String.eqb (timeStep f) "2025") eqn:E2025.
  - cbn [andb] in *. apply Nat.ltb_ge in Hcold.
    apply Nat.leb_le in Hcold. rewrite Hcold.
    destruct NeighYesNo; cbn [Spec.enabled] in *.
    + destruct ConstYesNo; reflexivity.
    + specialize (Hn eq_refl). injection Hn as <-.
      destruct ConstYesNo; reflexivity.
  - cbn [andb].
    destruct NeighYesNo; cbn [Spec.enabled] in *.
    + destruct ConstYesNo; reflexivity.
    + rewrite (Hn eq_refl). destruct ConstYesNo; reflexivity.
Qed.

Lemma composite_score_table_witness :
  compositeScore N N 1 2 halfwayCell
  = Ok (Q2R (Constraint halfwayCell) * Q2R (1 # 2) * Probab halfwayCell)%R
  /\ compositeScore N Y 1 2 (classifiedCell 7 "N")
     = Ok (Q2R (Constraint (classifiedCell 7 "N"))
           * Probab (classifiedCell 7 "N"))%R
  /\ compositeScore Y Y 5 2 (classifiedCell 7 "N")
     = Ok (Probab (classifiedCell 7 "N")).
Proof.
  split; [|split].
  - apply (composite_score_table N N 1 2 halfwayCell (1 # 2));
      [reflexivity | intros _; reflexivity].
  - apply (composite_score_table N Y 1 2 (classifiedCell 7 "N") 0);
      [reflexivity | intros H; discriminate H].
  - apply (composite_score_table Y Y 5 2 (classifiedCell 7 "N") 0);
      [reflexivity | intros H; discriminate H].
Defined.

(** C8, as the specification words it, fails in binary64: for a linear
    predictor of 40 the power [e**-40] is [0x1.39792499b1a24p-58] (about
    4.25e-18, below half the distance from 1 to the next float), so
    [1 + e**-40] rounds to 1 and the probability is exactly 1, not below
    it.  The same holds for every value of the power up to [2**-53], and
    a power that overflows gives the probability 0. *)
Lemma probability_reaches_one_counterexample :
  probBinary64 0x1.39792499b1a24p-58 = 1%float
  /\ PrimFloat.ltb (probBinary64 0x1.39792499b1a24p-58) 1 = false
  /\ probBinary64 0x1p-53 = 1%float
  /\ probBinary64 infinity = 0%float
  /\ PrimFloat.ltb 0 (probBinary64 infinity) = false.
Proof. repeat split. Qed.

(** C8 (amended): the logistic probability lies in the closed interval
    [0, 1] (strictly inside it in exact arithmetic only), and under every
    combination of switched-off constraints and neighborhood effects the
    composite score of a cell whose eligibility is 0 or 1 and whose
    neighborhood effect factors lie in [0, 1] lies in [0, 1]. *)
Theorem probability_and_score_bounds (ConstYesNo NeighYesNo : YesNo)
        (intercept : Q) (coeff : list Q) (cols f count : nat) (row : Row)
        (score : R) :
  let p := prob intercept coeff cols (predictorValues row) in
  (0 <= p <= 1)%R /\
  ((Constraint row == 0 \/ Constraint row == 1)%Q ->
   (0 <= Neighborhood row <= 1)%Q ->
   (forall v, Neighb_Update row = Some v -> (0 <= v <= 1)%Q) ->
   compositeScore ConstYesNo NeighYesNo f count (set_Probab p row) = Ok score ->
   (0 <= score <= 1)%R).
Proof.
  intros p.
  assert (Hp : (0 < p < 1)%R) by apply prob_bounds.
  split; [lra|].
  intros He Hn Hu Hs.
  assert (He' : Q2R (Constraint row) = 0%R \/ Q2R (Constraint row) = 1%R).
  { destruct He as [He|He]; [left; rewrite <- Q2R_0|right; rewrite <- Q2R_1];
      now apply Qeq_eqR. }
  apply Q2R_unit in Hn.
  unfold compositeScore in Hs. cbn [set_Probab Probab Constraint Neighborhood
                                    Neighb_Update] in Hs.
  assert (Hupd : forall k, (v <- readField (Neighb_Update row) ;; Ok (k v))
                           = Ok score ->
                           exists v, (0 <= v <= 1)%R /\ score = k v).
  { intros k. destruct (Neighb_Update row) as [v|]; [|discriminate].
    cbn. intros H. injection H as <-. exists (Q2R v). split; [|reflexivity].
    apply Q2R_unit. now apply Hu. }
  destruct (String.eqb (timeStep f) "2025" && (count <? 2)%nat);
    [|destruct (String.eqb (timeStep f) "2025" && (2 <=? count)%nat)];
    destruct ConstYesNo, NeighYesNo;
    try (injection Hs as <-);
    try (apply (Hupd (fun v => (v * p)%R)) in Hs; destruct Hs as [v [Hv ->]]);
    try (apply (Hupd (fun v => (Q2R (Constraint row) * v * p)%R)) in Hs;
         destruct Hs as [v [Hv ->]]);
    destruct He' as [E | E]; rewrite ?E; nra.
Qed.

Lemma probability_and_score_bounds_witness :
  (0 <= Q2R (Constraint halfwayCell) * Q2R (1 # 2)
        * prob (-4 # 1) [2 # 1] 1 (predictorValues halfwayCell) <= 1)%R.
Proof.
  apply (probability_and_score_bounds N N (-4 # 1) [2 # 1] 1 1 2 halfwayCell).
  - right. reflexivity.
  - split; discriminate.
  - intros v H. injection H as <-. split; discriminate.
  - reflexivity.
Defined.

End ScoreFacts.

(** ** The time step *)

Section StepFacts.
Variable centerIn : Z -> Z -> bool.
Variables ConstYesNo NeighYesNo : YesNo.
Variable gridCellsChanged : nat.

Lemma mapM_Forall2 {A B : Type} (g : A -> result B) (l : list A) (l' : list B) :
  mapM g l = Ok l' -> Forall2 (fun a b => g a = Ok b) l l'.
Proof.
  revert l'. induction l as [|a l IH]; intros l' H; cbn in H.
  - injection H as <-. constructor.
  - destruct (g a) as [b|] eqn:Ea; [|discriminate]. cbn in H.
    destruct (mapM g l) as [bs|]; [|discriminate]. cbn in H.
    injection H as <-. constructor; auto.
Qed.

Lemma mapM_map_eq {A B C : Type} (g : A -> result B) (k : A -> C) (h : B -> C)
      (l : list A) (l' : list B) :
  (forall a b, g a = Ok b -> h b = k a) ->
  mapM g l = Ok l' -> map h l' = map k l.
Proof.
  intros Hg H. apply mapM_Forall2 in H.
  induction H as [|a b l l' Hab _ IH]; cbn; [reflexivity|].
  now rewrite IH, (Hg a b Hab).
Qed.

Lemma mapM_length {A B : Type} (g : A -> result B) (l : list A) (l' : list B) :
  mapM g l = Ok l' -> List.length l' = List.length l.
Proof.
  intros H. apply mapM_Forall2 in H. symmetry. eapply Forall2_length; eauto.
Qed.

Lemma gained_not_N (f : nat) : String.eqb (gained f) "N" = false.
Proof. reflexivity. Qed.

Lemma gained_containsY (f : nat) : containsY (gained f) = true.
Proof. reflexivity. Qed.

(** Scoring leaves cell numbers, states and constraints as they are. *)
Lemma CalculateField_status (intercept : Q) (coeff : list Q) (count f : nat)
      (table scored : list Row) :
  CalculateField ConstYesNo NeighYesNo f count
                 (refillProbab intercept coeff table) = Ok scored ->
  map Spec.status scored = map Spec.status table.
Proof.
  intros H. unfold CalculateField in H.
  apply mapM_map_eq with (k := Spec.status) (h := Spec.status) in H.
  - rewrite H. unfold refillProbab. rewrite map_map. now apply map_ext.
  - intros a b Hab. destruct (compositeScore _ _ _ _ a); [|discriminate].
    cbn in Hab. now injection Hab as <-.
Qed.

Lemma updateSurface_status (f : nat) (cellNoList : list Z) (table : list Row) :
  map Spec.status (updateSurface f cellNoList table)
  = map (Spec.afterConversion (gained f) cellNoList) (map Spec.status table).
Proof.
  unfold updateSurface. rewrite !map_map. apply map_ext. intros row.
  unfold Spec.afterConversion, Spec.status. cbn [fst snd].
  now destruct (inList _ _).
Qed.

Lemma neighborhoodEffects_status (f : nat) (mergedCells table final : list Row) :
  neighborhoodEffects centerIn f mergedCells table = Ok final ->
  map Spec.status final = map Spec.status table.
Proof.
  unfold neighborhoodEffects. destruct (updatedFactors _ _ _); [|discriminate].
  cbn. intros H. injection H as <-. rewrite map_map. apply map_ext.
  intros row. unfold writeFactor. now destruct (fold_left _ _ _).
Qed.

(** What a completed time step did to the gridded surface. *)
Lemma step_inv (intercept : Q) (coeff : list Q) (count f : nat)
      (table final mergedCells : list Row) (abort : bool) :
  step centerIn ConstYesNo NeighYesNo gridCellsChanged intercept coeff count f
       table = Ok (final, mergedCells, abort) ->
  exists scored cells cellNoList abortScript,
    CalculateField ConstYesNo NeighYesNo f count
                   (refillProbab intercept coeff table) = Ok scored /\
    convert ConstYesNo f
            (firstn gridCellsChanged
                    (Sort (filter Spec.unconverted scored)))
    = (cells, cellNoList, abortScript) /\
    abort = match ConstYesNo with N => abortScript | Y => false end /\
    map Spec.status final
    = map (Spec.afterConversion (gained f) cellNoList) (map Spec.status table).
Proof.
  unfold step. intros H.
  destruct (CalculateField _ _ _ _ _) as [scored|] eqn:Escored; [|discriminate].
  cbn [bind] in H. unfold SelectLayerByAttribute in H.
  change (fun row : Row => String.eqb (Wind_Turb_Fut row) "N")
    with Spec.unconverted in H.
  destruct (convert _ _ _) as [[cells cellNoList] abortScript] eqn:Econv.
  exists scored, cells, cellNoList, abortScript.
  split; [reflexivity|]. split; [exact Econv|].
  assert (Hupd : map Spec.status (updateSurface f cellNoList scored)
                 = map (Spec.afterConversion (gained f) cellNoList)
                       (map Spec.status table)).
  { rewrite updateSurface_status. f_equal.
    eapply CalculateField_status; eauto. }
  destruct (negb (String.eqb (timeStep f) "2050"));
    [destruct NeighYesNo|]; cbn [bind] in H.
  - injection H as <- <- <-. auto.
  - destruct (neighborhoodEffects _ _ _ _) as [final'|] eqn:Eupd; [|discriminate].
    cbn [bind] in H. injection H as <- <- <-. split; [reflexivity|].
    rewrite <- Hupd. eapply neighborhoodEffects_status; eauto.
  - injection H as <- <- <-. auto.
Qed.

Lemma map_eq_Forall2 {A B C : Type} (g : B -> C) (h : A -> C) (l : list A)
      (l' : list B) :
  map g l' = map h l -> Forall2 (fun a b => g b = h a) l l'.
Proof.
  revert l'. induction l as [|a l IH]; intros [|b l'] H; try discriminate.
  - constructor.
  - cbn in H. injection H as Hab H. constructor; auto.
Qed.

Lemma step_staysConverted (intercept : Q) (coeff : list Q) (count f : nat)
      (table final mergedCells : list Row) (abort : bool) :
  step centerIn ConstYesNo NeighYesNo gridCellsChanged intercept coeff count f
       table = Ok (final, mergedCells, abort) ->
  Forall2 Spec.staysConverted table final.
Proof.
  intros H. apply step_inv in H.
  destruct H as (scored & cells & cellNoList & abortScript & _ & _ & _ & H).
  rewrite map_map in H. apply map_eq_Forall2 in H.
  eapply Forall2_impl; [|exact H].
  intros row row' E. unfold Spec.status, Spec.afterConversion in E.
  cbn [fst snd] in E. injection E as Efid Estate _.
  unfold Spec.staysConverted. rewrite Efid, Estate.
  destruct (inList _ _); repeat split; auto.
  intros _ E. discriminate.
Qed.

Lemma staysConverted_refl (row : Row) : Spec.staysConverted row row.
Proof. unfold Spec.staysConverted. auto. Qed.

Lemma staysConverted_trans (a b c : Row) :
  Spec.staysConverted a b -> Spec.staysConverted b c -> Spec.staysConverted a c.
Proof.
  unfold Spec.staysConverted. intros (E1 & N1 & Y1) (E2 & N2 & Y2).
  repeat split; [congruence | auto | auto].
Qed.

Lemma Forall2_trans {A : Type} (R : A -> A -> Prop) :
  (forall a b c, R a b -> R b c -> R a c) ->
  forall l1 l2 l3, Forall2 R l1 l2 -> Forall2 R l2 l3 -> Forall2 R l1 l3.
Proof.
  intros HR l1 l2 l3 H12. revert l3.
  induction H12; intros l3 H23; inversion H23; subst; constructor; eauto.
Qed.

(** Every surface of the loop descends from every earlier one. *)
Lemma timeLoop_chain (intercept : Q) (dfCoeffs : list (list Q)) (count : nat)
      (fs : list nat) (table : list Row) :
  ForallOrdPairs (Forall2 Spec.staysConverted)
    (table :: map fst (fst (timeLoop centerIn ConstYesNo NeighYesNo
                                     gridCellsChanged intercept dfCoeffs count
                                     fs table))).
Proof.
  revert table. induction fs as [|f fs IH]; intros table; cbn [timeLoop].
  - repeat constructor.
  - destruct (step _ _ _ _ _ _ _ _ _) as [[[table' merged] abort]|] eqn:E.
    + apply step_staysConverted in E.
      destruct abort.
      * cbn. repeat constructor. exact E.
      * specialize (IH table').
        destruct (timeLoop _ _ _ _ _ _ _ _ table') as [later how].
        cbn [fst map] in *. constructor; [|exact IH].
        inversion IH as [|? ? Hall _]; subst.
        constructor; [exact E|].
        eapply Forall_impl; [|exact Hall].
        intros T. apply Forall2_trans; [exact staysConverted_trans|exact E].
    + repeat constructor.
Qed.

Lemma ForallOrdPairs_nth {A : Type} (R : A -> A -> Prop) (l : list A)
      (t t' : nat) (a b : A) :
  ForallOrdPairs R l -> (t < t')%nat ->
  nth_error l t = Some a -> nth_error l t' = Some b -> R a b.
Proof.
  intros H. revert t t'. induction H as [|x l Hall _ IH]; intros t t' Hlt Ha Hb.
  - destruct t; discriminate.
  - destruct t' as [|t']; [lia|]. cbn in Hb. destruct t as [|t]; cbn in Ha.
    + injection Ha as <-. rewrite Forall_forall in Hall.
      apply Hall. eapply nth_error_In; eauto.
    + apply (IH t t'); [lia|assumption|assumption].
Qed.

(** C5: along the loop over the time steps of a configuration, a cell that
    contains a wind farm (state "Y" or "Y (<year>)", anything but "N") in
    the gridded surface of a time step [t] is in a state other than "N" in
    the surface of every later time step [t']; no time step writes "N". *)
Theorem conversion_is_monotonic (intercept : Q) (dfCoeffs : list (list Q))
        (table : list Row) (t t' : nat) (before after : list Row) (i : nat)
        (row : Row) :
  let steps := surfaces centerIn ConstYesNo NeighYesNo gridCellsChanged
                        intercept dfCoeffs table in
  (t < t')%nat ->
  nth_error steps t = Some before ->
  nth_error steps t' = Some after ->
  nth_error before i = Some row ->
  Wind_Turb_Fut row <> "N"%string ->
  exists row',
    nth_error after i = Some row' /\
    TARGET_FID row' = TARGET_FID row /\
    Wind_Turb_Fut row' <> "N"%string /\
    (containsY (Wind_Turb_Fut row) = true ->
     containsY (Wind_Turb_Fut row') = true).
Proof.
  intros steps Hlt Hb Ha Hrow Hstate.
  assert (H : Forall2 Spec.staysConverted before after).
  { eapply ForallOrdPairs_nth; [|exact Hlt|exact Hb|exact Ha].
    apply timeLoop_chain. }
  clear - H Hrow Hstate. revert i Hrow.
  induction H as [|a b l l' Hab _ IH]; intros i Hrow.
  - destruct i; discriminate.
  - destruct i as [|i]; cbn in *.
    + injection Hrow as <-. exists b. destruct Hab as (E & Hn & Hy). auto.
    + eauto.
Qed.

End StepFacts.

Lemma conversion_is_monotonic_witness :
  let steps := surfaces nextTo Y Y 1 (-4 # 1)
                        oneCoefficient threeCells in
  let row := nth 2 (nth 1 steps []) halfwayCell in
  exists row',
    nth_error (nth 3 steps []) 2 = Some row' /\
    TARGET_FID row' = TARGET_FID row /\
    Wind_Turb_Fut row' <> "N"%string /\
    (containsY (Wind_Turb_Fut row) = true ->
     containsY (Wind_Turb_Fut row') = true).
Proof.
  intros steps row.
  apply (conversion_is_monotonic nextTo Y Y 1 (-4 # 1)
           oneCoefficient threeCells 1 3
           (nth 1 steps []) (nth 3 steps []) 2 row).
  - lia.
  - vm_compute. reflexivity.
  - vm_compute. reflexivity.
  - vm_compute. reflexivity.
  - vm_compute. discriminate.
Defined.

(** ** Ranking and conversion *)

Section Allocation.

Lemma Rleb_true (a b : R) : Rleb a b = true <-> (a <= b)%R.
Proof. unfold Rleb. destruct (Rle_dec a b); split; intros; (lra || discriminate || reflexivity). Qed.

Lemma Rleb_false (a b : R) : Rleb a b = false <-> (b < a)%R.
Proof. unfold Rleb. destruct (Rle_dec a b); split; intros; (lra || discriminate || reflexivity). Qed.

Lemma insertDescending_perm (row : Row) (l : list Row) :
  Permutation (insertDescending row l) (row :: l).
Proof.
  induction l as [|a l IH]; cbn; [reflexivity|].
  destruct (Rleb _ _); [reflexivity|].
  rewrite IH. apply perm_swap.
Qed.

Lemma Sort_perm (l : list Row) : Permutation (Sort l) l.
Proof.
  induction l as [|a l IH]; cbn; [reflexivity|].
  rewrite insertDescending_perm. now constructor.
Qed.




Lemma Forall_firstn {A : Type} (P : A -> Prop) (n : nat) (l : list A) :
  Forall P l -> Forall P (firstn n l).
Proof.
  intros H. revert n. induction H; intros [|n]; cbn; constructor; auto.
Qed.




Lemma filter_length_map {A B : Type} (g : A -> B) (P : B -> bool) (l : list A) :
  List.length (filter (fun a => P (g a)) l) = List.length (filter P (map g l)).
Proof.
  induction l as [|a l IH]; cbn; [reflexivity|].
  destruct (P (g a)); cbn; now rewrite IH.
Qed.

Lemma NoDup_map_filter {A B : Type} (g : A -> B) (P : A -> bool) (l : list A) :
  NoDup (map g l) -> NoDup (map g (filter P l)).
Proof.
  induction l as [|a l IH]; cbn; intros H; [constructor|].
  inversion H as [|? ? Hnotin Hnd]; subst.
  destruct (P a); cbn; auto. constructor; auto.
  intros Hin. apply Hnotin. apply in_map_iff in Hin.
  destruct Hin as [x [Ex Hx]]. apply filter_In in Hx.
  apply in_map_iff. exists x. tauto.
Qed.

Lemma NoDup_map_firstn {A B : Type} (g : A -> B) (n : nat) (l : list A) :
  NoDup (map g l) -> NoDup (map g (firstn n l)).
Proof.
  revert n. induction l as [|a l IH]; intros [|n]; cbn; intros H;
    try constructor.
  - inversion H as [|? ? Hnotin Hnd]; subst. intros Hin. apply Hnotin.
    apply in_map_iff in Hin. destruct Hin as [x [Ex Hx]].
    apply in_map_iff. exists x. split; [exact Ex|].
    rewrite <- (firstn_skipn n l). apply in_or_app. now left.
  - inversion H; subst. now apply IH.
Qed.

Lemma NoDup_map_inj {A B : Type} (g : A -> B) (l : list A) (a b : A) :
  NoDup (map g l) -> In a l -> In b l -> g a = g b -> a = b.
Proof.
  induction l as [|x l IH]; cbn; intros H Ha Hb E; [tauto|].
  inversion H as [|? ? Hnotin Hnd]; subst.
  destruct Ha as [->|Ha], Hb as [->|Hb]; auto.
  - exfalso. apply Hnotin. rewrite E. now apply in_map.
  - exfalso. apply Hnotin. rewrite <- E. now apply in_map.
Qed.

Lemma inList_In (x : Z) (l : list Z) : inList x l = true <-> In x l.
Proof.
  unfold inList. rewrite existsb_exists. split.
  - intros [y [Hy E]]. apply Z.eqb_eq in E. now subst.
  - intros H. exists x. split; [exact H|apply Z.eqb_refl].
Qed.

(** With unique cell numbers, a list of cell numbers of the table without
    repetition selects as many rows as it has entries. *)
Lemma selected_count (table : list Row) (K : list Z) :
  NoDup (map TARGET_FID table) -> NoDup K ->
  (forall k, In k K -> In k (map TARGET_FID table)) ->
  List.length (filter (fun row => inList (TARGET_FID row) K) table)
  = List.length K.
Proof.
  intros Hnd HK Hincl.
  rewrite <- (length_map TARGET_FID).
  apply Permutation_length. apply NoDup_Permutation; [|exact HK|].
  - now apply NoDup_map_filter.
  - intros k. rewrite in_map_iff. split.
    + intros [row [<- Hrow]]. apply filter_In in Hrow.
      now apply inList_In.
    + intros Hk. specialize (Hincl k Hk). apply in_map_iff in Hincl.
      destruct Hincl as [row [<- Hrow]]. exists row. split; [reflexivity|].
      apply filter_In. split; [exact Hrow|now apply inList_In].
Qed.


Lemma filter_filter_and {A : Type} (P Q : A -> bool) (l : list A) :
  filter P (filter Q l) = filter (fun x => Q x && P x) l.
Proof.
  induction l as [|a l IH]; cbn; [reflexivity|].
  destruct (Q a); cbn; [destruct (P a)|]; now rewrite IH.
Qed.

Lemma filter_nil {A : Type} (P : A -> bool) (l : list A) :
  (forall x, In x l -> P x = false) -> filter P l = [].
Proof.
  induction l as [|a l IH]; cbn; intros H; [reflexivity|].
  rewrite (H a) by now left. apply IH. intros x Hx. apply H. now right.
Qed.

Lemma filter_nil_inv {A : Type} (P : A -> bool) (l : list A) (x : A) :
  filter P l = [] -> In x l -> P x = false.
Proof.
  intros H Hx. destruct (P x) eqn:E; [|reflexivity].
  assert (Hin : In x (filter P l)) by (apply filter_In; auto).
  rewrite H in Hin. destruct Hin.
Qed.


Lemma Forall2_filter_combine {A B : Type} (R : A -> B -> Prop)
      (P : A * B -> bool) (P' : A -> bool) (l : list A) (l' : list B) :
  Forall2 R l l' -> (forall a b, R a b -> P (a, b) = P' a) ->
  List.length (filter P (combine l l')) = List.length (filter P' l).
Proof.
  intros H HP. induction H as [|a b l l' Hab _ IH]; cbn; [reflexivity|].
  rewrite (HP a b Hab). destruct (P' a); cbn; now rewrite IH.
Qed.

Lemma status_In (l l' : list Row) (row : Row) :
  map Spec.status l = map Spec.status l' -> In row l ->
  exists row', In row' l' /\ Spec.status row' = Spec.status row.
Proof.
  intros E Hrow. apply (in_map Spec.status) in Hrow. rewrite E in Hrow.
  apply in_map_iff in Hrow. destruct Hrow as [row' [E' Hrow']]. eauto.
Qed.



Lemma unconverted_length (l l' : list Row) :
  map Spec.status l = map Spec.status l' ->
  List.length (filter Spec.unconverted l)
  = List.length (filter Spec.unconverted l').
Proof.
  intros E.
  rewrite !(filter_length_map Spec.status
              (fun s => String.eqb (snd (fst s)) "N")).
  now rewrite E.
Qed.

End Allocation.

(** ** The quota under constraints *)

Section Quota.
Variable centerIn : Z -> Z -> bool.
Variable NeighYesNo : YesNo.
Variable gridCellsChanged : nat.



Section OneStep.
Variables (intercept : Q) (coeff : list Q) (count f : nat).
Variables table scored : list Row.
Hypothesis Hscored :
  CalculateField N NeighYesNo f count (refillProbab intercept coeff table)
  = Ok scored.











End OneStep.











End Quota.

(** ** The range of the neighborhood effect factors *)

Section FactorBounds.
Variable centerIn : Z -> Z -> bool.

Lemma filter_length_lt {A : Type} (P : A -> bool) (l : list A) (x : A) :
  In x l -> P x = false ->
  (List.length (filter P l) < List.length l)%nat.
Proof.
  induction l as [|a l IH]; cbn; [tauto|].
  intros [->|Hx] Px.
  - rewrite Px. pose proof (filter_length_le P l). lia.
  - specialize (IH Hx Px). destruct (P a); cbn; lia.
Qed.

Lemma Qdiv_unit (a b : Z) :
  (0 <= a <= b)%Z -> (0 < b)%Z ->
  (0 <= inject_Z a / inject_Z b <= 1)%Q.
Proof.
  intros Ha Hb. destruct b as [|b|b]; try lia.
  unfold Qdiv, Qmult, Qinv, Qle, inject_Z. cbn. lia.
Qed.

(** A cell is selected around itself. *)
Lemma selected_around_itself (layer : list Row) (row : Row) :
  In row layer ->
  centerIn (TARGET_FID row) (TARGET_FID row) = true ->
  In row (SelectLayerByLocation centerIn layer
            (SelectLayerByAttribute layer
               (fun r => (TARGET_FID r =? TARGET_FID row)%Z))).
Proof.
  intros Hrow Hself. apply filter_In. split; [exact Hrow|].
  apply existsb_exists. exists row. split; [|exact Hself].
  apply filter_In. split; [exact Hrow|apply Z.eqb_refl].
Qed.

(** The factors of the initial scan lie in [0, 1]. *)
Lemma initial_scan_bounds (preparedSurface : list Row) (row : Row) :
  In row preparedSurface ->
  centerIn (TARGET_FID row) (TARGET_FID row) = true ->
  (0 <= ConstraintNeighborhood.neighborhoodEffect centerIn preparedSurface
          (TARGET_FID row) <= 1)%Q.
Proof.
  intros Hrow Hself. unfold ConstraintNeighborhood.neighborhoodEffect.
  pose proof (selected_around_itself preparedSurface row Hrow Hself) as Hin.
  set (adjacent := SelectLayerByLocation _ _ _) in *.
  set (P := fun row0 : Row => _).
  assert (Hlt : (List.length (filter P adjacent) < List.length adjacent)%nat).
  { apply (filter_length_lt P adjacent row Hin).
    unfold P. rewrite Z.eqb_refl. apply andb_false_r. }
  destruct (0 <? _)%Z eqn:E.
  - apply Z.ltb_lt in E. apply Qdiv_unit; lia.
  - split; discriminate.
Qed.

(** So do the factors the update computes, where it computes one. *)
Lemma updatedFactor_bounds (adjacent : list Row) (row1 : Row) (v : Q) :
  In row1 adjacent ->
  centerIn (TARGET_FID row1) (TARGET_FID row1) = true ->
  updatedFactor centerIn adjacent row1 = Ok v ->
  (0 <= v <= 1)%Q.
Proof.
  intros Hrow Hself. unfold updatedFactor.
  pose proof (selected_around_itself adjacent row1 Hrow Hself) as Hin.
  set (neighbors := SelectLayerByLocation _ _ _) in *.
  set (P := fun row2 : Row => _).
  assert (Hlt : (List.length (filter P neighbors) < List.length neighbors)%nat).
  { apply (filter_length_lt P neighbors row1 Hin).
    unfold P. rewrite Z.eqb_refl. apply andb_false_r. }
  destruct (_ =? 0)%Z eqn:E; [discriminate|].
  apply Z.eqb_neq in E. intros H. injection H as <-.
  apply Qdiv_unit; lia.
Qed.

End FactorBounds.

(** ** The quota and the update of the factors on example grids *)

Section ExampleRuns.

(** With the neighborhood effects switched off, an eligible cell scores
    above 0. *)
Lemma score_positive_without_neighborhood (intercept : Q) (coeff : list Q)
      (count f : nat) (table : list Row) (row : Row) (score : R) :
  (0 < Constraint row)%Q ->
  Spec.scoreOf N Y intercept coeff count f table row = Ok score ->
  (0 < score)%R.
Proof.
  intros Hc. unfold Spec.scoreOf, compositeScore.
  cbn [Constraint Probab set_Probab].
  assert (Hp := prob_bounds intercept coeff (predictorCount table)
                            (predictorValues row)).
  apply Qlt_Rlt in Hc. rewrite Q2R_0 in Hc.
  destruct (_ && _); [|destruct (_ && _)];
    intros H; injection H as <-; nra.
Qed.



(** The initial scan gives the factor 0 to a grid cell without another
    cell within the search distance, and divides by no zero. *)
Lemma initial_scan_isolated (centerIn : Z -> Z -> bool)
      (preparedSurface : list Row) (gridCell : Z) :
  (forall row, In row preparedSurface ->
               centerIn (TARGET_FID row) gridCell = true ->
               TARGET_FID row = gridCell) ->
  (ConstraintNeighborhood.neighborhoodEffect centerIn preparedSurface gridCell
   == 0)%Q.
Proof.
  intros Hiso. unfold ConstraintNeighborhood.neighborhoodEffect.
  set (adjacent := SelectLayerByLocation _ _ _).
  assert (Hnone : filter (fun row => String.eqb (Wind_Turb row) "Y"
                                     && negb (TARGET_FID row =? gridCell)%Z)
                         adjacent = []).
  { apply filter_nil. intros row Hrow.
    apply filter_In in Hrow. destruct Hrow as [Hrow Hnear].
    apply existsb_exists in Hnear. destruct Hnear as [s [Hs Hnear]].
    apply filter_In in Hs. destruct Hs as [_ Hs]. apply Z.eqb_eq in Hs.
    rewrite Hs in Hnear. rewrite (Hiso row Hrow Hnear), Z.eqb_refl.
    apply andb_false_r. }
  rewrite Hnone. destruct (_ <? _)%Z; reflexivity.
Qed.

(** C7 at a failing input: the island cell 4 of [threeCells] has no
    neighbor, and the initial scan gives it the factor 0.  With the
    constraints switched off, the neighborhood effects in use and one cell
    per time step, cell 4 gains a wind farm in 2025; the update of the
    factors then divides by its [totalNeighbors = 0] and the script stops
    on ZeroDivisionError. *)
Theorem isolated_cell_update_raises :
  map Neighborhood threeCells = [1; 1; 0]%Q /\
  step nextTo Y N 1 (-4 # 1) [2 # 1] 2 0 (initialise N threeCells)
  = Raise ZeroDivisionError /\
  projection nextTo Y N 1 (-4 # 1) oneCoefficient threeCells
  = ([], Stopped ZeroDivisionError).
Proof.
  repeat split; vm_compute; reflexivity.
Qed.

Lemma Rleb_holds (a b : R) : (a <= b)%R -> Rleb a b = true.
Proof. apply Rleb_true. Qed.

Lemma Rleb_fails (a b : R) : (b < a)%R -> Rleb a b = false.
Proof. apply Rleb_false. Qed.

(** The eligible cell 2 ranks first. *)
Lemma Sort_scoredFour (p : R) :
  (0 < p)%R ->
  Sort (filter Spec.unconverted (scoredFour p))
  = [nth 1 (scoredFour p) halfwayCell; nth 0 (scoredFour p) halfwayCell;
     nth 2 (scoredFour p) halfwayCell; nth 3 (scoredFour p) halfwayCell].
Proof.
  intros Hp.
  assert (H0 : Q2R 0 = 0%R) by apply Q2R_0.
  assert (H1 : Q2R 1 = 1%R) by apply Q2R_1.
  repeat (cbn -[Q2R Rleb Rmult];
          first [ rewrite Rleb_holds by (rewrite ?H0, ?H1; lra)
                | rewrite Rleb_fails by (rewrite ?H0, ?H1; lra) ]).
  reflexivity.
Qed.

(** A cell that no updated factor is computed for keeps its factor: the
    updated one if there is one, else the original one. *)
Lemma untouched_factor_retained (updates : list (Z * Q)) (row : Row) :
  ~ In (TARGET_FID row) (map fst updates) ->
  Neighb_Update (writeFactor updates row)
  = Some match Neighb_Update row with
         | Some v => v
         | None => Neighborhood row
         end.
Proof.
  intros Hnot. unfold writeFactor.
  assert (E : fold_left (fun current '(gridCell, v) =>
                           if (TARGET_FID row =? gridCell)%Z then Some v
                           else current)
                        updates (Neighb_Update row) = Neighb_Update row).
  { generalize (Neighb_Update row) as current.
    induction updates as [|[g v] updates IH]; intros current; cbn;
      [reflexivity|].
    cbn in Hnot. destruct (Z.eqb_spec (TARGET_FID row) g) as [E|_].
    - exfalso. apply Hnot. left. now symmetry.
    - apply IH. intros H. apply Hnot. now right. }
  rewrite E. now destruct (Neighb_Update row).
Qed.

(** C4 at a failing input: the four cells of [fourCells] lie in a row,
    with the constraints and the neighborhood effects in use and one cell
    per time step.  Cell 2 gains a wind farm in 2025.  Cell 3 is a neighbor
    of cell 2; its own neighbors are the cells 2 and 4, of which one
    contains a wind farm, so its factor should be 1/2.  The update selects
    the neighbors of cell 3 among the cells around cell 2 only, finds the
    single neighbor 2 and writes the factor 1.  Cell 4, not touched, keeps
    its factor 0. *)
Theorem update_counts_selected_neighbors_only :
  exists final mergedCells,
    step nextTo N N 1 (-4 # 1) [2 # 1] 0 0 (initialise N fourCells)
    = Ok (final, mergedCells, false) /\
    map TARGET_FID final = [1; 2; 3; 4]%Z /\
    map Wind_Turb_Fut final = ["N"; "Y (2025)"; "N"; "N"]%string /\
    map Neighb_Update final = [Some 1; Some (0 # 2); Some 1; Some 0]%Q /\
    map TARGET_FID (Spec.fullNeighborSet nextTo final 3) = [2; 4]%Z /\
    (Spec.fullFactor nextTo final 3 == 1 # 2)%Q.
Proof.
  unfold step.
  change (CalculateField N N 0 0
            (refillProbab (-4 # 1) [2 # 1] (initialise N fourCells)))
    with (Ok (scoredFour (prob (-4 # 1) [2 # 1] 1 [1 # 2]))).
  cbn [bind]. unfold SelectLayerByAttribute.
  change (fun row : Row => String.eqb (Wind_Turb_Fut row) "N")
    with Spec.unconverted.
  rewrite Sort_scoredFour by apply prob_bounds.
  generalize (prob (-4 # 1) [2 # 1] 1 [1 # 2]). intros p.
  eexists. eexists.
  split; [vm_compute; reflexivity|].
  vm_compute. repeat split.
Qed.

(** The ranking of [scoredTied] keeps the table order: both scores are 0. *)
Lemma Sort_scoredTied (p : R) :
  Sort (filter Spec.unconverted (scoredTied p)) = scoredTied p.
Proof.
  assert (H0 : Q2R 0 = 0%R) by apply Q2R_0.
  cbn -[Q2R Rleb Rmult].
  rewrite Rleb_holds by (rewrite ?H0; lra). reflexivity.
Qed.

(** Why the quota needs positive scores: with the neighborhood effects in
    use, the eligible cell 2 of [tiedCells] scores 0 like the ineligible
    cell 1.  Ranked in table order, cell 1 comes first, the cursor stops on
    it and no cell is converted, although one eligible cell is left for a
    quota of 1. *)
Lemma tie_with_ineligible_cell :
  exists final mergedCells,
    step nextTo N N 1 (-4 # 1) [2 # 1] 2 1 tiedCells
    = Ok (final, mergedCells, true) /\
    List.length (Spec.eligibleUnconverted tiedCells) = 1%nat /\
    Spec.newlyConverted tiedCells final = [].
Proof.
  unfold step.
  change (CalculateField N N 1 2 (refillProbab (-4 # 1) [2 # 1] tiedCells))
    with (Ok (scoredTied (prob (-4 # 1) [2 # 1] 1 [1 # 2]))).
  cbn [bind]. unfold SelectLayerByAttribute.
  change (fun row : Row => String.eqb (Wind_Turb_Fut row) "N")
    with Spec.unconverted.
  rewrite Sort_scoredTied.
  generalize (prob (-4 # 1) [2 # 1] 1 [1 # 2]). intros p.
  eexists. eexists.
  split; [vm_compute; reflexivity|].
  vm_compute. split; reflexivity.
Qed.

(** One turn of the loop over the time steps. *)
Lemma timeLoop_step (centerIn : Z -> Z -> bool) (ConstYesNo NeighYesNo : YesNo)
    (gridCellsChanged : nat) (intercept : Q) (dfCoeffs : list (list Q))
    (count f : nat) (fs : list nat) (table : list Row) :
  timeLoop centerIn ConstYesNo NeighYesNo gridCellsChanged intercept dfCoeffs
           count (f :: fs) table
  = match step centerIn ConstYesNo NeighYesNo gridCellsChanged intercept
               (nth (S f) dfCoeffs []) count f table with
    | Raise e => ([], Stopped e)
    | Ok (table', mergedCells, abort) =>
        if abort then ([(table', mergedCells)], TerminatedEarly f)
        else
          let '(later, how) :=
            timeLoop centerIn ConstYesNo NeighYesNo gridCellsChanged intercept
                     dfCoeffs count fs table' in
          ((table', mergedCells) :: later, how)
    end.
Proof. reflexivity. Qed.

(** C6 at a failing input, reached by two projections of one run.  The
    gridded surface [Samples.contestedCells] has the four cells 2, 1, 3, 4
    in this order, next to each other in a row, none with a wind farm;
    cell 2 violates a constraint.  The constraints and the neighborhood
    effects are in use, one cell is to gain a wind farm per time step, and
    the one fitted configuration has a positive coefficient; cell 3 has the
    highest predictor value.

    Null configuration: all probabilities are equal.  In 2025 (fewer than
    two wind farms: constraint times probability) the cells 1, 3, 4 tie
    and cell 1, the first of them in the table, gains a wind farm; the
    update gives cell 2 the factor 1 and leaves the factor 0 of the cells
    3 and 4.  In 2030 every score is 0, cell 2 ranks first as the first in
    the table, and the loop breaks without a conversion.

    Fitted configuration: in 2025 cell 3 ranks first and gains a wind
    farm; the update gives the cells 2 and 4 the factor 1.  In 2030 cell 4
    is the only one with a positive score and gains a wind farm.  In 2035
    the cells 2 and 1 tie at 0, cell 2 ranks first and the loop breaks.

    The classifications N, Y (2025), Y (2030) hold 3, 1, 0 cells under the
    null and 2, 1, 1 cells under the fitted configuration.  Half the sum of
    the absolute differences between row and column totals is
    (1 + 0 + 1) / 2 = 1; the code computes [quantDis = 0], and since
    [quantDisStar] is 0 as well it reports [qFinal = 0]. *)
Theorem quantity_disagreement_misses_totals :
  let run :=
    runConfiguration nextTo N N 1 (Some Samples.contestedModel) None None None
  in
  exists nullSteps otherSteps,
    run 0%nat Samples.contestedCells = Ok (nullSteps, TerminatedEarly 1) /\
    run 1%nat Samples.contestedCells = Ok (otherSteps, TerminatedEarly 2) /\
    let projectedNull := snd (last nullSteps ([], [])) in
    let projectedOther := snd (last otherSteps ([], [])) in
    let countsNull := counts projectedNull in
    let countsOther := counts projectedOther in
    map (fun row => (TARGET_FID row, Wind_Turb_Fut row)) projectedNull
    = [(1, "Y (2025)"); (2, "N"); (3, "N"); (4, "N")]%Z%string /\
    map (fun row => (TARGET_FID row, Wind_Turb_Fut row)) projectedOther
    = [(3, "Y (2025)"); (4, "Y (2030)"); (2, "N"); (1, "N")]%Z%string /\
    map (@List.length Z) countsNull = [3; 1; 0; 0; 0; 0; 0]%nat /\
    map (@List.length Z) countsOther = [2; 1; 1; 0; 0; 0; 0]%nat /\
    (specQuantityDisagreement countsNull countsOther == 1)%Q /\
    (quantDis countsNull countsOther == 0)%Q /\
    quantDisStar countsNull countsOther = 0%Z /\
    (qFinal countsNull countsOther == 0)%Q.
Proof.
  assert (P0 := prob_bounds (-4 # 1) [0] 1 [0]).
  assert (P1 := prob_bounds (-4 # 1) [2 # 1] 1 [1 # 2]).
  assert (P2 : (prob (-4 # 1) [2 # 1] 1 [1 # 2]
                < prob (-4 # 1) [2 # 1] 1 [3 # 2])%R)
    by (apply prob_rises; reflexivity).
  eexists. eexists. split; [|split].
  - unfold runConfiguration. cbn -[projection Samples.contestedCells].
    apply f_equal. unfold projection.
    repeat (cbv -[timeLoop Q2R Rmult prob Rleb];
            first [ rewrite Rleb_holds by (unfold Q2R; cbn [Qnum Qden]; lra)
                  | rewrite Rleb_fails by (unfold Q2R; cbn [Qnum Qden]; lra)
                  | rewrite timeLoop_step; unfold step ]).
    reflexivity.
  - unfold runConfiguration. cbn -[projection Samples.contestedCells].
    apply f_equal. unfold projection.
    repeat (cbv -[timeLoop Q2R Rmult prob Rleb];
            first [ rewrite Rleb_holds by (unfold Q2R; cbn [Qnum Qden]; lra)
                  | rewrite Rleb_fails by (unfold Q2R; cbn [Qnum Qden]; lra)
                  | rewrite timeLoop_step; unfold step ]).
    reflexivity.
  - cbv -[Q2R Rmult prob]. repeat split.
Qed.

End ExampleRuns.

(** * Further properties of the code *)

(** ** The constraints *)

Section ConstraintFacts.
Import Constraints.

Lemma checkField_fold (S : Settings) (row : SurfaceRow) (names : list string) :
  forall acc,
    fold_left (checkField S row) (names ++ ["Constraint"%string]) acc
    = if existsb (fun name => violates S name row) names then Some 0%Q
      else match acc with
           | None => Some 1%Q
           | Some v => Some v
           end.
Proof.
  induction names as [|name names IH]; intros acc.
  - cbn. destruct acc; reflexivity.
  - cbn [app fold_left existsb]. rewrite IH. unfold checkField.
    destruct (violates S name row) eqn:V; cbn [orb].
    + destruct (existsb _ names); [reflexivity|].
      destruct (String.eqb name "Constraint"); reflexivity.
    + destruct (existsb _ names); [reflexivity|].
      destruct (String.eqb name "Constraint"); destruct acc; reflexivity.
Qed.

Lemma constrainedYesOrNo_violation (S : Settings) (cursorList : list string)
                                   (row : SurfaceRow) :
  constrainedYesOrNo S cursorList row
  = Some (if existsb (fun name => violates S name row) cursorList
          then 0%Q else 1%Q).
Proof.
  unfold constrainedYesOrNo. rewrite checkField_fold.
  destruct (existsb _ cursorList); reflexivity.
Qed.

(** X1: whatever the constraints and the cursor list, [constrainedYesOrNo()]
    leaves no grid cell with an empty "Constraint" field: the field holds 0
    or 1, and it holds 0 exactly when the row violates the constraint of
    one of the fields of the cursor list. *)
Theorem constraint_field_zero_or_one (S : Settings) (cursorList : list string)
                                     (row : SurfaceRow) :
  (constrainedYesOrNo S cursorList row = Some 0%Q
   \/ constrainedYesOrNo S cursorList row = Some 1%Q)
  /\ (constrainedYesOrNo S cursorList row = Some 0%Q
      <-> exists name, In name cursorList /\ violates S name row = true).
Proof.
  rewrite constrainedYesOrNo_violation.
  destruct (existsb _ cursorList) eqn:E.
  - split; [now left|]. split; [|reflexivity]. intros _.
    apply existsb_exists in E. exact E.
  - split; [now right|]. split; [discriminate|]. intros H.
    apply existsb_exists in H. congruence.
Qed.

Lemma default_violation (row : SurfaceRow) :
  existsb (fun name => violates defaultSettings name row) defaultCursorList
  = prohibitedByDefault row.
Proof.
  unfold defaultCursorList, prohibitedByDefault, violates.
  cbn -[leb geb isY].
  destruct (leb (Near_Air row) 2500); [reflexivity|].
  destruct (leb (Near_Plant row) 10000); [reflexivity|].
  destruct (leb (Near_Hosp row) 2500); [reflexivity|].
  destruct (leb (Near_Sch row) 2500); [reflexivity|].
  destruct (leb (Near_Roads row) 500); [reflexivity|].
  destruct (geb (Near_Roads row) 10000); [reflexivity|].
  destruct (leb (Near_Trans row) 250); [reflexivity|].
  destruct (geb (Near_Trans row) 10000); [reflexivity|].
  destruct (geb (Avg_Elevat row) 2000); [reflexivity|].
  destruct (leb (Avg_Wind row) 4); [reflexivity|].
  destruct (leb (Avg_Temp row) 0); [reflexivity|].
  destruct (isY (Military row)); [reflexivity|].
  destruct (isY (Nat_Parks row)); [reflexivity|].
  destruct (isY (Critical row)); [reflexivity|].
  destruct (isY (Historical row)); [reflexivity|].
  destruct (isY (Mining row)); [reflexivity|].
  destruct (isY (Wild_Refug row)); [reflexivity|].
  destruct (isY (Trib_Land row)); reflexivity.
Qed.

(** X2: under the default constraints, [constrainedYesOrNo()] writes 0 to
    "Constraint" for exactly the grid cells that the diagnostic count
    [allCellsProhibited] of [constraints()] counts as invalidating at least
    one default constraint. *)
Theorem default_constraints_agree (row : SurfaceRow) :
  constrainedYesOrNo defaultSettings defaultCursorList row = Some 0%Q
  <-> prohibitedByDefault row = true.
Proof.
  rewrite constrainedYesOrNo_violation, default_violation.
  destruct (prohibitedByDefault row); split; intros H;
    try reflexivity; discriminate.
Qed.

Lemma allowed_not_prohibited (row : SurfaceRow) :
  allowedByDefault row = true -> prohibitedByDefault row = false.
Proof.
  unfold allowedByDefault, prohibitedByDefault, gtb, ltb, leb, geb, isY, isN.
  intros H. repeat (apply andb_prop in H; destruct H as [H ?]).
  repeat match goal with
         | E : negb ?b = true |- _ =>
             apply negb_true_iff in E; rewrite E; clear E
         | E : String.eqb ?s "N" = true |- _ =>
             apply String.eqb_eq in E; rewrite E; clear E
         end.
  reflexivity.
Qed.

Lemma categorical_allowed (row : SurfaceRow) :
  categorical row -> allowedByDefault row = negb (prohibitedByDefault row).
Proof.
  unfold categorical. intros H.
  repeat match goal with
         | H : Forall _ (_ :: _) |- _ => inversion_clear H
         end.
  unfold allowedByDefault, prohibitedByDefault, gtb, ltb, leb, geb, isY, isN.
  repeat match goal with
         | E : _ \/ _ |- _ => destruct E as [E|E]; rewrite E; clear E
         end;
  cbn; rewrite ?orb_true_r, ?andb_false_r, ?orb_false_r, ?andb_true_r;
  rewrite ?negb_orb; reflexivity.
Qed.

Lemma filter_complement {A : Type} (P Q : A -> bool) (l : list A) :
  Forall (fun x => Q x = negb (P x)) l ->
  (List.length (filter P l) + List.length (filter Q l))%nat = List.length l.
Proof.
  induction 1 as [|x l Hx _ IH]; [reflexivity|].
  cbn. rewrite Hx. destruct (P x); cbn; lia.
Qed.

Lemma filter_exclusive {A : Type} (P Q : A -> bool) (l : list A) :
  (forall x, Q x = true -> P x = false) ->
  (List.length (filter P l) + List.length (filter Q l) <= List.length l)%nat.
Proof.
  intros H. induction l as [|x l IH]; [cbn; lia|].
  cbn. specialize (H x).
  destruct (Q x); [rewrite (H eq_refl)|destruct (P x)]; cbn; lia.
Qed.

(** A grid cell is never counted both as prohibited and as allowed. *)
Lemma default_counts_exclusive (surface : list SurfaceRow) :
  (allCellsProhibited surface + allCellsAllowed surface
   <= List.length surface)%nat.
Proof. apply filter_exclusive, allowed_not_prohibited. Qed.

(** X3: where the seven categorical fields of every grid cell hold "Y" or
    "N", the diagnostic counts of [constraints()] split the surface: every
    grid cell is counted either as prohibited or as allowed, and every grid
    cell with a wind farm either in [turbineCellsProhibited] or in
    [turbineCellsAllowed]. *)
Theorem default_counts_partition (surface : list SurfaceRow) :
  Forall categorical surface ->
  (allCellsProhibited surface + allCellsAllowed surface
   = List.length surface)%nat
  /\ (turbineCellsProhibited surface + turbineCellsAllowed surface
      = windFarmCount surface)%nat.
Proof.
  intros H. split.
  - apply filter_complement. revert H. apply Forall_impl.
    intros row. apply categorical_allowed.
  - unfold turbineCellsProhibited, turbineCellsAllowed, windFarmCount.
    induction H as [|row surface Hrow _ IH]; [reflexivity|].
    cbn. rewrite (categorical_allowed row Hrow).
    destruct (prohibitedByDefault row), (isY (Wind_Turb row)); cbn; lia.
Qed.

Lemma default_counts_partition_witness :
  Forall categorical [Samples.openField; Samples.nearAirport]
  /\ (allCellsProhibited [Samples.openField; Samples.nearAirport]
      + allCellsAllowed [Samples.openField; Samples.nearAirport] = 2)%nat
  /\ (turbineCellsProhibited [Samples.openField; Samples.nearAirport]
      + turbineCellsAllowed [Samples.openField; Samples.nearAirport]
      = windFarmCount [Samples.openField; Samples.nearAirport])%nat.
Proof.
  assert (H : Forall categorical [Samples.openField; Samples.nearAirport])
    by (repeat constructor; right; reflexivity).
  split; [exact H|].
  apply (default_counts_partition [Samples.openField; Samples.nearAirport] H).
Defined.

End ConstraintFacts.

Section ConstraintCounts.
Import Constraints.

Lemma totalConstrained_from (constraintField : list (option Q)) :
  forall c u t,
    fold_left
      (fun '(constrainedCount, unconstrainedCount, total) v =>
         match v with
         | Some q =>
             if Qeq_bool q 0
             then (Datatypes.S constrainedCount, unconstrainedCount,
                   Datatypes.S total)
             else (constrainedCount, Datatypes.S unconstrainedCount,
                   Datatypes.S total)
         | None => (constrainedCount, Datatypes.S unconstrainedCount,
                    Datatypes.S total)
         end)
      constraintField (c, u, t)
    = let zero := fun v => match v with
                           | Some q => Qeq_bool q 0
                           | None => false
                           end in
      ((c + List.length (filter zero constraintField))%nat,
       (u + List.length (filter (fun v => negb (zero v)) constraintField))%nat,
       (t + List.length constraintField)%nat).
Proof.
  induction constraintField as [|v l IH]; intros c u t.
  - cbn. now rewrite !Nat.add_0_r.
  - cbn [fold_left]. destruct v as [q|]; [destruct (Qeq_bool q 0) eqn:E|];
      rewrite IH; cbn -[Nat.add]; rewrite ?E; cbn -[Nat.add].
      all: apply f_equal2; [apply f_equal2|]; lia.
Qed.

(** What [totalConstrained()] counts after [constrainedYesOrNo()]: the
    rows that violate a constraint of the cursor list, the other rows, and
    all rows. *)
Lemma total_constrained_counts (S : Settings) (cursorList : list string)
                               (surface : list SurfaceRow) :
  totalConstrained (map (constrainedYesOrNo S cursorList) surface)
  = (List.length (filter (fun row => existsb (fun name => violates S name row)
                                            cursorList) surface),
     List.length (filter (fun row => negb (existsb (fun name => violates S name row)
                                                  cursorList)) surface),
     List.length surface).
Proof.
  unfold totalConstrained. rewrite totalConstrained_from. cbn zeta.
  rewrite length_map. cbn [Nat.add].
  apply f_equal2; [apply f_equal2|reflexivity].
  - induction surface as [|row surface IH]; [reflexivity|].
    cbn. rewrite constrainedYesOrNo_violation.
    destruct (existsb _ cursorList); cbn; now rewrite IH.
  - induction surface as [|row surface IH]; [reflexivity|].
    cbn. rewrite constrainedYesOrNo_violation.
    destruct (existsb _ cursorList); cbn; now rewrite IH.
Qed.

(** X4: under the default constraints the counts of [totalConstrained()],
    taken from the field that [constrainedYesOrNo()] has filled, are the
    diagnostic count [allCellsProhibited] taken before, the rest of the
    grid cells, and the number of grid cells. *)
Theorem default_total_constrained (surface : list SurfaceRow) :
  totalConstrained
    (map (constrainedYesOrNo defaultSettings defaultCursorList) surface)
  = (allCellsProhibited surface,
     (List.length surface - allCellsProhibited surface)%nat,
     List.length surface).
Proof.
  rewrite total_constrained_counts. unfold allCellsProhibited.
  rewrite (filter_ext _ _ default_violation).
  apply f_equal2; [apply f_equal2; [reflexivity|]|reflexivity].
  pose proof (filter_complement prohibitedByDefault
                (fun row => negb (prohibitedByDefault row)) surface) as H.
  rewrite (filter_ext _ (fun row => negb (prohibitedByDefault row))).
  - assert (H' : Forall (fun row => negb (prohibitedByDefault row)
                                  = negb (prohibitedByDefault row)) surface)
      by now apply Forall_forall.
    specialize (H H'). lia.
  - intros row. now rewrite default_violation.
Qed.

(** X5: a grid cell that is prohibited under a cursor list of constraints
    is prohibited under every cursor list that contains its fields: the
    order and the repetition of the fields in [cursorList] do not matter,
    and more constraints never allow more grid cells. *)
Theorem more_constraints_prohibit_more (S : Settings) (l1 l2 : list string)
                                       (row : SurfaceRow) :
  incl l1 l2 ->
  constrainedYesOrNo S l1 row = Some 0%Q ->
  constrainedYesOrNo S l2 row = Some 0%Q.
Proof.
  intros Hincl. rewrite !constrainedYesOrNo_violation.
  destruct (existsb _ l1) eqn:E1; [|discriminate].
  intros _. apply existsb_exists in E1. destruct E1 as [name [Hin Hv]].
  assert (E2 : existsb (fun name => violates S name row) l2 = true).
  { apply existsb_exists. exists name. split; [apply Hincl, Hin|exact Hv]. }
  now rewrite E2.
Qed.

Lemma more_constraints_prohibit_more_witness :
  incl ["Near_Air"%string] defaultCursorList
  /\ constrainedYesOrNo defaultSettings ["Near_Air"%string] Samples.nearAirport
     = Some 0%Q
  /\ constrainedYesOrNo defaultSettings defaultCursorList Samples.nearAirport
     = Some 0%Q.
Proof.
  assert (H : incl ["Near_Air"%string] defaultCursorList)
    by (intros name [<-|[]]; left; reflexivity).
  split; [exact H|]. split; [reflexivity|].
  apply (more_constraints_prohibit_more defaultSettings ["Near_Air"%string]
           defaultCursorList Samples.nearAirport H).
  reflexivity.
Defined.

End ConstraintCounts.

(** ** Gained capacity and scenarios *)

Section ScenarioFacts.
Import Scenarios.
Local Open Scope Q_scope.

Lemma indexOf_Some (code : string) (predictors : list string) (k : nat) :
  indexOf code predictors = Some k ->
  nth_error predictors k = Some code.
Proof.
  revert k. induction predictors as [|p rest IH]; intros k; cbn; [discriminate|].
  destruct (String.eqb p code) eqn:E.
  - intros [= <-]. apply String.eqb_eq in E. now subst.
  - destruct (indexOf code rest) as [j|]; [|discriminate].
    intros [= <-]. now apply IH.
Qed.

Lemma indexOf_None (code : string) (predictors : list string) :
  indexOf code predictors = None <-> ~ In code predictors.
Proof.
  induction predictors as [|p rest IH]; cbn; [tauto|].
  destruct (String.eqb p code) eqn:E.
  - apply String.eqb_eq in E. split; [discriminate|]. intros H. exfalso. auto.
  - apply String.eqb_neq in E.
    destruct (indexOf code rest); cbn.
    + split; [discriminate|]. intros H. exfalso. apply H. right.
      destruct (in_dec string_dec code rest) as [Hin|Hin]; [exact Hin|].
      now apply IH in Hin.
    + split; [|reflexivity]. intros _ [H|H]; [auto|]. now apply IH in H.
Qed.

Lemma nth_error_lt {A} (l : list A) (k : nat) (x : A) :
  nth_error l k = Some x -> (k < List.length l)%nat.
Proof. intros H. apply nth_error_Some. congruence. Qed.

Lemma assign_Ok (v : Q) (changes : list Q) :
  forall index, (index < List.length changes)%nat ->
    exists changes',
      assign index v changes = Ok changes'
      /\ List.length changes' = List.length changes
      /\ nth index changes' 0%Q = v
      /\ forall j, j <> index -> nth j changes' 0%Q = nth j changes 0%Q.
Proof.
  induction changes as [|c rest IH]; intros index Hlt; [cbn in Hlt; lia|].
  destruct index as [|index]; cbn.
  - exists (v :: rest). repeat split. intros [|j] Hj; [congruence|reflexivity].
  - destruct (IH index) as [rest' [E [Hlen [Hnth Hother]]]]; [cbn in Hlt; lia|].
    rewrite E. cbn. exists (c :: rest'). cbn. repeat split; auto.
    intros [|j] Hj; [reflexivity|]. apply Hother. congruence.
Qed.

Lemma assign_Raise (v : Q) (changes : list Q) :
  forall index, (List.length changes <= index)%nat ->
    assign index v changes = Raise IndexError.
Proof.
  induction changes as [|c rest IH]; intros index Hle;
    [destruct index; reflexivity|].
  destruct index as [|index]; cbn in *; [lia|].
  rewrite IH by lia. reflexivity.
Qed.

(** The entries one after the other leave a list of the same length; the
    position of a code holds the value of the last entry for it, and a
    position no entry names keeps its value. *)
Lemma applyEntries_spec (predictors : list string) (entries : list (string * Q)) :
  forall changes,
    List.length changes = List.length predictors ->
    exists changes',
      applyEntries predictors changes entries = Ok changes'
      /\ List.length changes' = List.length predictors
      /\ (NoDup (map fst entries) ->
          forall code v k,
            In (code, v) entries -> indexOf code predictors = Some k ->
            nth k changes' 0%Q = v)
      /\ (forall k,
            (forall code v, In (code, v) entries ->
                            indexOf code predictors <> Some k) ->
            nth k changes' 0%Q = nth k changes 0%Q).
Proof.
  induction entries as [|[c w] entries IH]; intros changes Hlen.
  - exists changes. cbn. repeat split; auto. intros _ ? ? ? [].
  - cbn [applyEntries]. unfold setChange. cbn [fst snd].
    destruct (indexOf c predictors) as [i|] eqn:Ei.
    + pose proof (nth_error_lt _ _ _ (indexOf_Some _ _ _ Ei)) as Hi.
      destruct (assign_Ok w changes i) as [ch1 [E1 [Hl1 [Hn1 Ho1]]]]; [lia|].
      rewrite E1. cbn [bind].
      destruct (IH ch1) as [ch2 [E2 [Hl2 [Hset Hkeep]]]]; [lia|].
      exists ch2. split; [exact E2|]. split; [exact Hl2|]. split.
      * intros Hnd code v k Hin Hk. cbn in Hnd. inversion_clear Hnd as [|? ? Hc Hnd'].
        destruct Hin as [[= <- <-]|Hin].
        -- rewrite Hkeep.
           ++ assert (k = i) by congruence. subst k. exact Hn1.
           ++ intros code' v' Hin' Hk'.
              assert (code' = c).
              { apply indexOf_Some in Hk', Hk. congruence. }
              subst code'. apply Hc. apply in_map_iff. now exists (c, v').
        -- now apply (Hset Hnd' code v k).
      * intros k Hk. rewrite Hkeep.
        -- apply Ho1. intros ->. apply (Hk c w); [now left|exact Ei].
        -- intros code v Hin. apply (Hk code v). now right.
    + cbn [bind]. destruct (IH changes Hlen) as [ch2 [E2 [Hl2 [Hset Hkeep]]]].
      exists ch2. split; [exact E2|]. split; [exact Hl2|]. split.
      * intros Hnd code v k Hin Hk. cbn in Hnd. inversion_clear Hnd as [|? ? Hc Hnd'].
        destruct Hin as [[= <- <-]|Hin]; [congruence|].
        now apply (Hset Hnd' code v k).
      * intros k Hk. apply Hkeep. intros code v Hin. apply (Hk code v). now right.
Qed.

Lemma nodup_NoDup (l : list string) :
  nodup string_dec l = l -> NoDup l.
Proof. intros <-. apply NoDup_nodup. Qed.

Lemma selectedEntries_NoDup (studyArea : string) (a : Answers) :
  NoDup (map fst (selectedEntries studyArea a)).
Proof.
  unfold selectedEntries.
  destruct (String.eqb studyArea "CONUS");
    destruct a as [[] [] [] [] [] [] [] []];
    apply nodup_NoDup; vm_compute; reflexivity.
Qed.

Lemma nth_zeros (predictors : list string) (k : nat) :
  nth k (zeros predictors) 0%Q = 0%Q.
Proof.
  unfold zeros. revert k.
  induction (List.length predictors) as [|n IH]; intros [|k]; cbn; auto.
Qed.

(** X8: whatever named scenarios the user selects, and whatever the
    predictor codes of the configuration, building the percentage changes
    raises no exception and gives one change per predictor: the value of
    the scenario's entry at the position [predictors.index(code)] of each
    code it names, and 0 at every position that no selected entry names.
    No code is named by two scenarios, so the order of the questions does
    not matter. *)
Theorem named_scenario_changes (studyArea : string) (a : Answers)
                               (predictors : list string) :
  exists changes,
    namedScenarioChanges studyArea a predictors = Ok changes
    /\ List.length changes = List.length predictors
    /\ (forall code v k,
          In (code, v) (selectedEntries studyArea a) ->
          indexOf code predictors = Some k ->
          nth k changes 0%Q = v)
    /\ (forall k,
          (forall code v, In (code, v) (selectedEntries studyArea a) ->
                          indexOf code predictors <> Some k) ->
          nth k changes 0%Q = 0%Q).
Proof.
  unfold namedScenarioChanges.
  destruct (applyEntries_spec predictors (selectedEntries studyArea a)
              (zeros predictors)) as [changes [E [Hlen [Hset Hkeep]]]].
  { unfold zeros. apply repeat_length. }
  exists changes. split; [exact E|]. split; [exact Hlen|]. split.
  - apply Hset, selectedEntries_NoDup.
  - intros k Hk. rewrite (Hkeep k Hk). apply nth_zeros.
Qed.

Lemma customScenario_filter (dfPredictors : list string) :
  forall names answers,
    List.length answers = List.length names ->
    NoDup names ->
    List.length (customScenario names answers dfPredictors)
    = List.length (filter (fun name => existsb (String.eqb name) dfPredictors)
                          names)
    /\ forall k name i,
        nth_error (filter (fun name => existsb (String.eqb name) dfPredictors)
                          names) k = Some name ->
        nth_error names i = Some name ->
        nth k (customScenario names answers dfPredictors) 0%Q
        = nth i answers 0%Q.
Proof.
  induction names as [|p pl IH]; intros answers Hlen Hnd.
  - split; [reflexivity|]. intros [|k] name i H; discriminate.
  - destruct answers as [|a answers]; [discriminate|].
    injection Hlen as Hlen. inversion_clear Hnd as [|? ? Hp Hnd'].
    destruct (IH answers Hlen Hnd') as [IHlen IHnth].
    cbn [customScenario filter].
    destruct (existsb (String.eqb p) dfPredictors) eqn:E.
    + split; [cbn; now rewrite IHlen|].
      intros [|k] name [|i] Hk Hi; cbn in Hk, Hi |- *.
      * reflexivity.
      * exfalso. injection Hk as <-. apply Hp. eapply nth_error_In, Hi.
      * exfalso. injection Hi as <-. apply Hp.
        apply nth_error_In in Hk. now apply filter_In in Hk.
      * now apply (IHnth k name i).
    + split; [exact IHlen|].
      intros k name [|i] Hk Hi; cbn in Hi |- *.
      * exfalso. injection Hi as <-. apply nth_error_In, filter_In in Hk.
        destruct Hk as [_ Hk]. congruence.
      * now apply (IHnth k name i).
Qed.

(** X9: the CUSTOM scenario gives every predictor of a configuration the
    percentage answered for it, provided the dataframe of the configuration
    lists its predictors in the order of [predictorList] and has no other
    predictor. *)
Theorem custom_scenario_aligned (predictorList : list string) (answers : list Q)
                                (dfPredictors : list string) :
  NoDup predictorList ->
  List.length answers = List.length predictorList ->
  dfPredictors = filter (fun name => existsb (String.eqb name) dfPredictors)
                        predictorList ->
  List.length (customScenario predictorList answers dfPredictors)
  = List.length dfPredictors
  /\ forall k name i,
      nth_error dfPredictors k = Some name ->
      nth_error predictorList i = Some name ->
      nth k (customScenario predictorList answers dfPredictors) 0%Q
      = nth i answers 0%Q.
Proof.
  intros Hnd Hlen Hdf.
  destruct (customScenario_filter dfPredictors predictorList answers Hlen Hnd)
    as [H1 H2].
  rewrite <- Hdf in H1, H2. split; [exact H1|exact H2].
Qed.

Lemma custom_scenario_aligned_witness :
  let predictorList :=
    ["Average Elevation"; "Average Temperature"; "Average Wind Speed"]%string in
  let answers := [5; 0; 10 # 1] in
  let dfPredictors := ["Average Elevation"; "Average Wind Speed"]%string in
  customScenario predictorList answers dfPredictors = [5; 10 # 1]
  /\ nth 1 (customScenario predictorList answers dfPredictors) 0%Q
     = nth 2 answers 0%Q.
Proof.
  split; [reflexivity|].
  refine (proj2 (custom_scenario_aligned
                   ["Average Elevation"; "Average Temperature";
                    "Average Wind Speed"]%string
                   [5; 0; 10 # 1]
                   ["Average Elevation"; "Average Wind Speed"]%string _ _ _)
                1%nat "Average Wind Speed"%string 2%nat _ _);
    try reflexivity.
  apply nodup_NoDup. reflexivity.
Defined.

Lemma existsb_eqb_In (name : string) (l : list string) :
  existsb (String.eqb name) l = true <-> In name l.
Proof.
  rewrite existsb_exists. split.
  - intros [x [Hin E]]. apply String.eqb_eq in E. now subst.
  - intros H. exists name. split; [exact H|apply String.eqb_refl].
Qed.

(** X10: the list of changes of the CUSTOM scenario depends only on which
    predictors the configuration has, not on the order of its dataframe:
    the changes always come in the order of [predictorList]. *)
Theorem custom_scenario_ignores_order (predictorList : list string)
    (answers : list Q) (df df' : list string) :
  (forall name, In name df <-> In name df') ->
  customScenario predictorList answers df
  = customScenario predictorList answers df'.
Proof.
  intros H. revert answers. rename predictorList into predictorList0.
  induction predictorList0 as [|p pl IH]; intros answers; [reflexivity|].
  destruct answers as [|a answers]; [reflexivity|]. cbn.
  assert (E : existsb (String.eqb p) df = existsb (String.eqb p) df').
  { apply eq_true_iff_eq. rewrite !existsb_eqb_In. apply H. }
  rewrite E, IH. reflexivity.
Qed.

Lemma custom_scenario_ignores_order_witness :
  customScenario ["Average Elevation"; "Average Wind Speed"]%string
                 [5; 10 # 1]
                 ["Average Wind Speed"; "Average Elevation"]%string
  = customScenario ["Average Elevation"; "Average Wind Speed"]%string
                   [5; 10 # 1]
                   ["Average Elevation"; "Average Wind Speed"]%string.
Proof.
  apply (custom_scenario_ignores_order
           ["Average Elevation"; "Average Wind Speed"]%string [5; 10 # 1]
           ["Average Wind Speed"; "Average Elevation"]%string
           ["Average Elevation"; "Average Wind Speed"]%string).
  intros name. simpl. tauto.
Defined.

(** X6: the number of wind farms gained in each time step,
    [ceil(capacity / oneFarmCapacity)], is the least number of wind farms
    of the chosen size whose capacity covers the gained capacity. *)
Theorem gained_wind_farms_cover (capacity oneFarmCapacity : Q) :
  0 < oneFarmCapacity ->
  inject_Z (gainedWindFarms capacity oneFarmCapacity - 1) * oneFarmCapacity
    < capacity
  /\ capacity
     <= inject_Z (gainedWindFarms capacity oneFarmCapacity) * oneFarmCapacity.
Proof.
  intros Hone. unfold gainedWindFarms.
  pose proof (Qle_ceiling (capacity / oneFarmCapacity)) as Hle.
  pose proof (Qceiling_lt (capacity / oneFarmCapacity)) as Hlt.
  assert (Hne : ~ oneFarmCapacity == 0) by (intros E; rewrite E in Hone; discriminate).
  split.
  - apply (Qmult_lt_r _ _ oneFarmCapacity Hone) in Hlt.
    unfold Qdiv in Hlt. rewrite <- Qmult_assoc in Hlt.
    rewrite (Qmult_comm (/ oneFarmCapacity)) in Hlt.
    rewrite Qmult_inv_r in Hlt by exact Hne. now rewrite Qmult_1_r in Hlt.
  - apply (Qmult_le_r _ _ oneFarmCapacity Hone) in Hle.
    unfold Qdiv in Hle. rewrite <- Qmult_assoc in Hle.
    rewrite (Qmult_comm (/ oneFarmCapacity)) in Hle.
    rewrite Qmult_inv_r in Hle by exact Hne. now rewrite Qmult_1_r in Hle.
Qed.

Lemma gained_wind_farms_cover_witness :
  gainedWindFarms (12116 # 10) 525 = 3%Z
  /\ inject_Z (gainedWindFarms (12116 # 10) 525 - 1) * 525 < 12116 # 10
  /\ 12116 # 10 <= inject_Z (gainedWindFarms (12116 # 10) 525) * 525.
Proof.
  split; [reflexivity|].
  apply (gained_wind_farms_cover (12116 # 10) 525). reflexivity.
Defined.

(** X7: the clause "OBJECTID <= gridCellsChanged" selects at least one of
    the sorted grid cells exactly when the gained capacity is positive; a
    custom capacity of 0 or less selects no grid cell at all. *)
Theorem farms_gained_iff_capacity_positive (capacity oneFarmCapacity : Q) :
  0 < oneFarmCapacity ->
  ((0 < selectedRows (gainedWindFarms capacity oneFarmCapacity))%nat
   <-> 0 < capacity).
Proof.
  intros Hone.
  destruct (gained_wind_farms_cover capacity oneFarmCapacity Hone) as [Hlo Hhi].
  unfold selectedRows.
  set (q := gainedWindFarms capacity oneFarmCapacity) in *.
  split.
  - intros Hq. assert (Hz : (0 <= q - 1)%Z) by lia.
    apply Qle_lt_trans with (2 := Hlo).
    apply Qmult_le_0_compat; [|now apply Qlt_le_weak].
    change 0 with (inject_Z 0). now rewrite <- Zle_Qle.
  - intros Hc. assert (Hz : (0 < q)%Z); [|lia].
    destruct (Z_lt_le_dec 0 q) as [Hq|Hq]; [exact Hq|exfalso].
    apply (Qlt_not_le _ _ Hc). apply Qle_trans with (1 := Hhi).
    rewrite <- (Qmult_0_l oneFarmCapacity).
    apply Qmult_le_compat_r; [|now apply Qlt_le_weak].
    change 0 with (inject_Z 0). now rewrite <- Zle_Qle.
Qed.

Lemma farms_gained_iff_capacity_positive_witness :
  selectedRows (gainedWindFarms (-40 # 1) 30) = 0%nat
  /\ ((0 < selectedRows (gainedWindFarms (-40 # 1) 30))%nat
      <-> 0 < -40 # 1).
Proof.
  split; [reflexivity|].
  apply (farms_gained_iff_capacity_positive (-40 # 1) 30). reflexivity.
Defined.

End ScenarioFacts.

(** ** The coefficients over the time steps *)

Section CoefficientGrowth.
Local Open Scope Q_scope.

Lemma newCoefficients_length (changes c2020 col : list Q) :
  List.length (newCoefficients changes c2020 col) = List.length c2020.
Proof. unfold newCoefficients. now rewrite length_map, length_seq. Qed.

(** X12: the frame of the future coefficients of a configuration with at
    least one predictor is built exactly when the list of changes and the
    fitted coefficients have one entry per predictor; with another length
    the assignment of the column raises ValueError.  Where it is built, the
    coefficient iteration leaves seven columns ("Coeff_2020" to
    "Coeff_2050") with one coefficient per predictor. *)
Theorem coefficient_columns_shape (predictors : list string)
                                  (changes c2020 : list Q) :
  predictors <> [] ->
  (Scenarios.dfCoeffsFrame predictors changes c2020 = Raise ValueError
   <-> List.length changes <> List.length predictors
       \/ List.length c2020 <> List.length predictors)
  /\ (forall columns,
        Scenarios.dfCoeffsFrame predictors changes c2020 = Ok columns ->
        List.length changes = List.length predictors
        /\ columns = coefficientColumns changes c2020
        /\ List.length columns = 7%nat
        /\ Forall (fun col => List.length col = List.length predictors)
                  columns).
Proof.
  intros Hne. unfold Scenarios.dfCoeffsFrame, Scenarios.assignColumn.
  cbn [Nat.eqb bind].
  destruct (List.length predictors) as [|n] eqn:En.
  { apply length_zero_iff_nil in En. contradiction. }
  cbn [Nat.eqb].
  destruct (Nat.eqb_spec (List.length changes) (S n)) as [E1|E1]; cbn [bind].
  - destruct (Nat.eqb_spec (List.length c2020) (S n)) as [E2|E2]; cbn [bind].
    + split.
      * split; [discriminate|]. intros [H|H]; contradiction.
      * intros columns [= <-]. split; [exact E1|]. split; [reflexivity|].
        split; [reflexivity|]. rewrite coefficientColumns_iter.
        apply Forall_forall. intros col Hin. apply in_map_iff in Hin.
        destruct Hin as [t [<- _]]. destruct t as [|t]; [exact E2|].
        rewrite <- E2. cbn [Nat.iter]. apply newCoefficients_length.
    + split; [|discriminate]. split; [now right|reflexivity].
  - split; [|discriminate]. split; [now left|reflexivity].
Qed.

Lemma coefficient_columns_shape_witness :
  Scenarios.dfCoeffsFrame ["Avg_Wind"; "Near_Roads"]%string [10 # 1]
                          [2 # 1; -3 # 1]
  = Raise ValueError.
Proof.
  apply (coefficient_columns_shape ["Avg_Wind"; "Near_Roads"]%string
           [10 # 1] [2 # 1; -3 # 1]).
  - discriminate.
  - left. simpl. lia.
Defined.

Lemma newCoefficient_grows (delta c : Q) :
  0 <= delta -> c <= newCoefficient delta c.
Proof.
  intros H. unfold newCoefficient.
  destruct (Qgtb delta 0) eqn:E1.
  - pose proof (Qabs_nonneg (c * (delta / 100))). lra.
  - destruct (Qgtb 0 delta) eqn:E2; [|apply Qle_refl].
    apply Qgtb_true in E2. exfalso. apply (Qlt_not_le _ _ E2 H).
Qed.

Lemma newCoefficient_shrinks (delta c : Q) :
  delta <= 0 -> newCoefficient delta c <= c.
Proof.
  intros H. unfold newCoefficient.
  destruct (Qgtb delta 0) eqn:E1.
  - apply Qgtb_true in E1. exfalso. apply (Qlt_not_le _ _ E1 H).
  - destruct (Qgtb 0 delta) eqn:E2; [|apply Qle_refl].
    pose proof (Qabs_nonneg (c * (delta / 100))). lra.
Qed.

(** X13: from one time step to the next a coefficient never decreases
    under a percentage change that is positive or zero, and never increases
    under one that is negative or zero, whatever the sign of the
    coefficient. *)
Theorem coefficient_monotone (changes c2020 : list Q) (t i : nat) :
  (t < 6)%nat -> (i < List.length c2020)%nat ->
  (0 <= nth i changes 0 ->
   coeffAt changes c2020 t i <= coeffAt changes c2020 (S t) i)
  /\ (nth i changes 0 <= 0 ->
      coeffAt changes c2020 (S t) i <= coeffAt changes c2020 t i).
Proof.
  intros Ht Hi. rewrite coeffAt_S by assumption. split; intros H.
  - now apply newCoefficient_grows.
  - now apply newCoefficient_shrinks.
Qed.

Lemma coefficient_monotone_witness :
  coeffAt [10 # 1] [-5 # 1] 2 0 <= coeffAt [10 # 1] [-5 # 1] 3 0.
Proof.
  apply (coefficient_monotone [10 # 1] [-5 # 1] 2 0);
    [simpl; lia | simpl; lia | discriminate].
Defined.

Lemma newCoefficient_nonneg (delta c : Q) :
  0 <= c -> -100 <= delta ->
  0 <= newCoefficient delta c /\ newCoefficient delta c == c * (1 + delta / 100).
Proof.
  intros Hc Hd.
  assert (E : newCoefficient delta c == c * (1 + delta / 100)).
  { unfold newCoefficient.
    destruct (Qgtb delta 0) eqn:E1; [|destruct (Qgtb 0 delta) eqn:E2].
    - apply Qgtb_true in E1.
      rewrite Qabs_percent, (Qabs_pos c), (Qabs_pos delta)
        by (assumption || now apply Qlt_le_weak).
      field.
    - apply Qgtb_true in E2.
      rewrite Qabs_percent, (Qabs_pos c), (Qabs_neg delta)
        by (assumption || now apply Qlt_le_weak).
      field.
    - apply Qgtb_false in E1, E2.
      assert (E : delta == 0) by now apply Qle_antisym.
      rewrite E. field. }
  split; [|exact E]. rewrite E.
  assert (P : delta / 100 == delta * (1 # 100)) by field.
  apply Qmult_le_0_compat; [exact Hc|rewrite P; lra].
Qed.

Lemma newCoefficient_nonpos (delta c : Q) :
  c <= 0 -> delta <= 100 ->
  newCoefficient delta c <= 0 /\ newCoefficient delta c == c * (1 - delta / 100).
Proof.
  intros Hc Hd.
  assert (E : newCoefficient delta c == c * (1 - delta / 100)).
  { unfold newCoefficient.
    destruct (Qgtb delta 0) eqn:E1; [|destruct (Qgtb 0 delta) eqn:E2].
    - apply Qgtb_true in E1.
      rewrite Qabs_percent, (Qabs_neg c), (Qabs_pos delta)
        by (assumption || now apply Qlt_le_weak).
      field.
    - apply Qgtb_true in E2.
      rewrite Qabs_percent, (Qabs_neg c), (Qabs_neg delta)
        by (assumption || now apply Qlt_le_weak).
      field.
    - apply Qgtb_false in E1, E2.
      assert (E : delta == 0) by now apply Qle_antisym.
      rewrite E. field. }
  split; [|exact E]. rewrite E.
  setoid_replace (c * (1 - delta / 100)) with (- ((- c) * (1 - delta / 100)))
    by ring.
  assert (P : delta / 100 == delta * (1 # 100)) by field.
  assert (H : 0 <= (- c) * (1 - delta / 100))
    by (apply Qmult_le_0_compat; [|rewrite P]; lra).
  lra.
Qed.

Lemma Qpower_S (q : Q) (t : nat) :
  q ^ Z.of_nat (S t) == q ^ Z.of_nat t * q.
Proof.
  rewrite Nat2Z.inj_succ. unfold Z.succ.
  rewrite Qpower_plus' by lia. now rewrite Qpower_1_r.
Qed.

(** X14: the coefficient of a predictor compounds.  A coefficient that
    starts at zero or above is multiplied by [1 + delta/100] in every time
    step if [delta >= -100]; one that starts at zero or below is multiplied
    by [1 - delta/100] if [delta <= 100]: a positive change moves a negative
    coefficient toward zero.  [t] ranges over the seven columns. *)
Theorem coefficient_compounding (changes c2020 : list Q) (t i : nat) :
  (t <= 6)%nat -> (i < List.length c2020)%nat ->
  let delta := nth i changes 0 in
  let c0 := nth i c2020 0 in
  (0 <= c0 -> -100 <= delta ->
   coeffAt changes c2020 t i == c0 * (1 + delta / 100) ^ Z.of_nat t)
  /\ (c0 <= 0 -> delta <= 100 ->
      coeffAt changes c2020 t i == c0 * (1 - delta / 100) ^ Z.of_nat t).
Proof.
  intros Ht Hi delta c0. split; intros Hc Hd.
  - assert (H : 0 <= coeffAt changes c2020 t i
                /\ coeffAt changes c2020 t i
                   == c0 * (1 + delta / 100) ^ Z.of_nat t); [|apply H].
    induction t as [|t IH].
    + rewrite coeffAt_0. fold c0. split; [exact Hc|]. cbn. ring.
    + destruct IH as [IH0 IH1]; [lia|].
      rewrite coeffAt_S by (assumption || lia). fold delta.
      destruct (newCoefficient_nonneg delta _ IH0 Hd) as [H0 H1].
      split; [exact H0|]. rewrite H1, IH1, Qpower_S. ring.
  - assert (H : coeffAt changes c2020 t i <= 0
                /\ coeffAt changes c2020 t i
                   == c0 * (1 - delta / 100) ^ Z.of_nat t); [|apply H].
    induction t as [|t IH].
    + rewrite coeffAt_0. fold c0. split; [exact Hc|]. cbn. ring.
    + destruct IH as [IH0 IH1]; [lia|].
      rewrite coeffAt_S by (assumption || lia). fold delta.
      destruct (newCoefficient_nonpos delta _ IH0 Hd) as [H0 H1].
      split; [exact H0|]. rewrite H1, IH1, Qpower_S. ring.
Qed.

Lemma coefficient_compounding_witness :
  coeffAt [10 # 1] [-5 # 1] 6 0 == (-5 # 1) * (1 - (10 # 1) / 100) ^ 6.
Proof.
  apply (coefficient_compounding [10 # 1] [-5 # 1] 6 0);
    [simpl; lia | simpl; lia | discriminate | discriminate].
Defined.

(** X11: under the DEFAULT scenario, whose changes are
    [[0] * len(dfCoefficients)], all seven coefficient columns are the
    fitted coefficients. *)
Theorem default_scenario_keeps_coefficients (predictors : list string)
                                            (c2020 : list Q) :
  coefficientColumns (Scenarios.zeros predictors) c2020 = repeat c2020 7.
Proof.
  rewrite coefficientColumns_iter.
  assert (E : forall col, col = c2020 ->
                newCoefficients (Scenarios.zeros predictors) c2020 col = c2020).
  { intros col ->. unfold newCoefficients.
    apply nth_ext with (d := 0) (d' := 0).
    - now rewrite length_map, length_seq.
    - intros n Hn. rewrite length_map, length_seq in Hn.
      rewrite nth_map_seq by assumption.
      apply newCoefficient_zero.
      unfold Scenarios.zeros.
      destruct (Nat.lt_ge_cases n (List.length predictors)) as [H|H].
      + rewrite nth_repeat_lt by assumption. reflexivity.
      + rewrite nth_overflow by (now rewrite repeat_length). reflexivity. }
  assert (F : forall t,
             Nat.iter t (newCoefficients (Scenarios.zeros predictors) c2020)
                      c2020 = c2020).
  { induction t as [|t IH]; [reflexivity|]. cbn. now apply E. }
  cbn [seq map repeat]. now rewrite !F.
Qed.

End CoefficientGrowth.

(** ** The time step and the projection *)

Section StepFrame.
Variable centerIn : Z -> Z -> bool.
Variables ConstYesNo NeighYesNo : YesNo.
Variable gridCellsChanged : nat.

(** A reading of a row that no field written in a time step changes is the
    same before and after the time step. *)
Lemma step_keeps {C : Type} (k : Row -> C) (intercept : Q) (coeff : list Q)
      (count f : nat) (table final mergedCells : list Row) (abort : bool) :
  (forall v r, k (set_Probab v r) = k r) ->
  (forall v r, k (set_Probab_year v r) = k r) ->
  (forall v r, k (set_Wind_Turb_Fut v r) = k r) ->
  (forall v r, k (set_Neighb_Update v r) = k r) ->
  step centerIn ConstYesNo NeighYesNo gridCellsChanged intercept coeff count f
       table = Ok (final, mergedCells, abort) ->
  map k final = map k table.
Proof.
  intros K1 K2 K3 K4. unfold step. intros H.
  destruct (CalculateField _ _ _ _ _) as [scored|] eqn:Escored; [|discriminate].
  cbn [bind] in H.
  destruct (convert _ _ _) as [[cells cellNoList] abortScript].
  assert (Hs : map k scored = map k table).
  { unfold CalculateField in Escored.
    apply mapM_map_eq with (k := k) (h := k) in Escored.
    - rewrite Escored. unfold refillProbab. rewrite map_map.
      apply map_ext. intros row. apply K1.
    - intros a b Hab. destruct (compositeScore _ _ _ _ a); [|discriminate].
      cbn in Hab. injection Hab as <-. apply K2. }
  assert (Hu : map k (updateSurface f cellNoList scored) = map k table).
  { rewrite <- Hs. unfold updateSurface. rewrite map_map. apply map_ext.
    intros row. destruct (inList _ _); [apply K3|reflexivity]. }
  assert (Hn : forall m final',
             neighborhoodEffects centerIn f m
               (updateSurface f cellNoList scored) = Ok final' ->
             map k final' = map k table).
  { intros m final'. unfold neighborhoodEffects.
    destruct (updatedFactors _ _ _); [|discriminate].
    cbn. intros E. injection E as <-. rewrite <- Hu, map_map.
    apply map_ext. intros row. unfold writeFactor.
    destruct (fold_left _ _ _); apply K4. }
  destruct (negb (String.eqb (timeStep f) "2050"));
    [destruct NeighYesNo|]; cbn [bind] in H.
  - injection H as <- <- <-. exact Hu.
  - destruct (neighborhoodEffects _ _ _ _) as [final'|] eqn:Eupd; [|discriminate].
    cbn [bind] in H. injection H as <- <- <-. eapply Hn, Eupd.
  - injection H as <- <- <-. exact Hu.
Qed.

(** X15: a completed time step leaves the rows of the gridded surface in
    place and writes none of the fields it starts from: the cell number,
    "Wind_Turb", "Constraint", the factor "Neighborhood" of the initial
    scan and the predictor values are the same after the step, whatever
    the switches and the quota. *)
Theorem step_preserves_input_fields (intercept : Q) (coeff : list Q)
      (count f : nat) (table final mergedCells : list Row) (abort : bool) :
  step centerIn ConstYesNo NeighYesNo gridCellsChanged intercept coeff count f
       table = Ok (final, mergedCells, abort) ->
  map (fun row => (TARGET_FID row, Wind_Turb row, Constraint row,
                   Neighborhood row, predictorValues row)) final
  = map (fun row => (TARGET_FID row, Wind_Turb row, Constraint row,
                     Neighborhood row, predictorValues row)) table.
Proof. apply step_keeps; reflexivity. Qed.

End StepFrame.

Lemma step_preserves_input_fields_witness :
  let table := initialise Y threeCells in
  let final :=
    match step nextTo N Y 2 (-4 # 1) [2 # 1] 2 0 table with
    | Ok (final, _, _) => final
    | Raise _ => []
    end in
  map (fun row => (TARGET_FID row, Wind_Turb row, Constraint row,
                   Neighborhood row, predictorValues row)) final
  = map (fun row => (TARGET_FID row, Wind_Turb row, Constraint row,
                     Neighborhood row, predictorValues row)) table.
Proof.
  intros table final.
  apply (step_preserves_input_fields nextTo N Y 2 (-4 # 1) [2 # 1] 2 0 table
           final
           match step nextTo N Y 2 (-4 # 1) [2 # 1] 2 0 table with
           | Ok (_, mergedCells, _) => mergedCells
           | Raise _ => []
           end
           false).
  vm_compute. reflexivity.
Defined.

Section StepCounts.
Variable centerIn : Z -> Z -> bool.
Variable NeighYesNo : YesNo.

Lemma afterConversion_none (label : string) (l : list (Z * string * Q)) :
  map (Spec.afterConversion label []) l = l.
Proof.
  induction l as [|[[a b] c] l IH]; [reflexivity|].
  cbn. now rewrite IH.
Qed.

Lemma status_labels (l l' : list Row) :
  map Spec.status l = map Spec.status l' ->
  map Wind_Turb_Fut l = map Wind_Turb_Fut l'.
Proof.
  intros H.
  change Wind_Turb_Fut with (fun row => snd (fst (Spec.status row))).
  now rewrite <- !(map_map Spec.status (fun s => snd (fst s))), H.
Qed.

(** X16: with a quota of 0 grid cells per time step (a gained capacity of
    0 or less), a completed time step converts no grid cell and never
    breaks the loop, also with the constraints in use and ineligible cells
    on top of the ranking. *)
Theorem no_quota_no_conversion (ConstYesNo : YesNo) (intercept : Q)
      (coeff : list Q) (count f : nat) (table final mergedCells : list Row)
      (abort : bool) :
  step centerIn ConstYesNo NeighYesNo 0 intercept coeff count f table
  = Ok (final, mergedCells, abort) ->
  abort = false /\ map Wind_Turb_Fut final = map Wind_Turb_Fut table.
Proof.
  intros H. apply step_inv in H.
  destruct H as (scored & cells & cellNoList & abortScript & _ & Hc & Ha & Hst).
  cbn [firstn] in Hc.
  assert (E : cellNoList = [] /\ abortScript = false).
  { destruct ConstYesNo; cbn in Hc; now injection Hc as _ <- <-. }
  destruct E as [-> ->]. split.
  - rewrite Ha. now destruct ConstYesNo.
  - apply status_labels. now rewrite Hst, afterConversion_none.
Qed.

(** The cells counted as newly converted are the rows whose cell number is
    in [cellNoList], where these are numbers of not yet converted cells. *)
Lemma newlyConverted_count (f : nat) (table final : list Row)
      (cellNoList : list Z) :
  NoDup (map TARGET_FID table) ->
  map Spec.status final
  = map (Spec.afterConversion (gained f) cellNoList) (map Spec.status table) ->
  NoDup cellNoList ->
  (forall k, In k cellNoList ->
             exists row, In row table /\ TARGET_FID row = k
                         /\ Spec.unconverted row = true) ->
  List.length (Spec.newlyConverted table final) = List.length cellNoList.
Proof.
  intros Hnd Hst HK Hrows. rewrite map_map in Hst. apply map_eq_Forall2 in Hst.
  unfold Spec.newlyConverted.
  rewrite (Forall2_filter_combine _ _
             (fun row => Spec.unconverted row
                         && inList (TARGET_FID row) cellNoList) _ _ Hst).
  - rewrite <- (selected_count table cellNoList Hnd HK).
    + f_equal. apply filter_ext_in. intros row Hrow.
      destruct (inList _ _) eqn:Ein; [|apply andb_false_r].
      rewrite andb_true_r. apply inList_In in Ein.
      destruct (Hrows _ Ein) as [row0 [Hrow0 [E Hu]]].
      now rewrite <- (NoDup_map_inj TARGET_FID table row0 row Hnd Hrow0 Hrow E).
    + intros k Hk. destruct (Hrows k Hk) as [row [Hrow [<- _]]].
      now apply in_map.
  - intros a b E. cbn [fst snd]. unfold Spec.unconverted at 2.
    unfold Spec.status, Spec.afterConversion in E. cbn [fst snd] in E.
    injection E as _ -> _.
    destruct (inList _ _); [rewrite gained_not_N; reflexivity|].
    cbn. rewrite andb_false_r. apply andb_negb_r.
Qed.

(** X17: with the constraints switched off and unique cell numbers, a
    completed time step never breaks the loop and converts exactly
    [gridCellsChanged] grid cells, or all the not yet converted ones where
    fewer are left. *)
Theorem constraints_off_converts_quota (gridCellsChanged : nat) (intercept : Q)
      (coeff : list Q) (count f : nat) (table final mergedCells : list Row)
      (abort : bool) :
  NoDup (map TARGET_FID table) ->
  step centerIn Y NeighYesNo gridCellsChanged intercept coeff count f table
  = Ok (final, mergedCells, abort) ->
  abort = false
  /\ List.length (Spec.newlyConverted table final)
     = Nat.min gridCellsChanged (List.length (filter Spec.unconverted table)).
Proof.
  intros Hnd H. apply step_inv in H.
  destruct H as (scored & cells & cellNoList & abortScript & Hs & Hc & Ha & Hst).
  split; [exact Ha|].
  apply CalculateField_status in Hs.
  cbn in Hc. unfold convertAll in Hc. injection Hc as _ <- _.
  set (ranking := Sort (filter Spec.unconverted scored)) in *.
  assert (Hperm : Permutation ranking (filter Spec.unconverted scored))
    by apply Sort_perm.
  assert (Efid : map TARGET_FID scored = map TARGET_FID table).
  { change TARGET_FID with (fun row => fst (fst (Spec.status row))).
    now rewrite <- !(map_map Spec.status (fun s => fst (fst s))), Hs. }
  assert (Hndr : NoDup (map TARGET_FID ranking)).
  { eapply Permutation_NoDup.
    - apply Permutation_map. symmetry. exact Hperm.
    - apply NoDup_map_filter. now rewrite Efid. }
  rewrite (newlyConverted_count f table final _ Hnd Hst).
  - rewrite length_map, length_firstn. f_equal.
    rewrite (Permutation_length Hperm).
    now apply unconverted_length.
  - now apply NoDup_map_firstn.
  - intros k Hk. apply in_map_iff in Hk. destruct Hk as [s [<- Hin]].
    assert (Hin' : In s ranking).
    { rewrite <- (firstn_skipn gridCellsChanged ranking).
      apply in_or_app. now left. }
    clear Hin. rename Hin' into Hin.
    apply (Permutation_in _ Hperm), filter_In in Hin. destruct Hin as [Hin Hu].
    destruct (status_In scored table s Hs Hin) as [row [Hrow E]].
    exists row. unfold Spec.status in E. injection E as E1 E2 _.
    repeat split; try assumption.
    unfold Spec.unconverted in *. now rewrite E2.
Qed.

End StepCounts.

Lemma no_quota_no_conversion_witness :
  let table := initialise Y threeCells in
  let final :=
    match step nextTo N Y 0 (-4 # 1) [2 # 1] 2 0 table with
    | Ok (final, _, _) => final
    | Raise _ => []
    end in
  map Wind_Turb_Fut final = ["Y"; "Y"; "N"]%string.
Proof.
  intros table final.
  apply (no_quota_no_conversion nextTo Y N (-4 # 1) [2 # 1] 2 0 table final
           match step nextTo N Y 0 (-4 # 1) [2 # 1] 2 0 table with
           | Ok (_, mergedCells, _) => mergedCells
           | Raise _ => []
           end
           false).
  vm_compute. reflexivity.
Defined.

Lemma constraints_off_converts_quota_witness :
  let table := initialise Y threeCells in
  let final :=
    match step nextTo Y Y 3 (-4 # 1) [2 # 1] 2 0 table with
    | Ok (final, _, _) => final
    | Raise _ => []
    end in
  List.length (Spec.newlyConverted table final) = 1%nat.
Proof.
  intros table final.
  apply (constraints_off_converts_quota nextTo Y 3 (-4 # 1) [2 # 1] 2 0 table
           final
           match step nextTo Y Y 3 (-4 # 1) [2 # 1] 2 0 table with
           | Ok (_, mergedCells, _) => mergedCells
           | Raise _ => []
           end
           false).
  - vm_compute. repeat constructor; cbn; intuition discriminate.
  - vm_compute. reflexivity.
Defined.

Section Exceptions.
Variable centerIn : Z -> Z -> bool.
Variable ConstYesNo : YesNo.
Variable gridCellsChanged : nat.

Lemma mapM_total {A B : Type} (g : A -> result B) (l : list A) :
  (forall a, In a l -> exists b, g a = Ok b) -> exists l', mapM g l = Ok l'.
Proof.
  induction l as [|a l IH]; intros H; [now exists []|].
  destruct (H a) as [b Eb]; [now left|].
  destruct IH as [l' El]; [intros x Hx; apply H; now right|].
  exists (b :: l'). cbn. now rewrite Eb, El.
Qed.

Lemma mapM_Raise {A B : Type} (g : A -> result B) (l : list A) (e : exception) :
  mapM g l = Raise e -> exists a, In a l /\ g a = Raise e.
Proof.
  induction l as [|a l IH]; [discriminate|]. cbn.
  destruct (g a) as [b|e'] eqn:Ea; cbn.
  - destruct (mapM g l) as [bs|e'] eqn:El; cbn; [discriminate|].
    intros [= <-]. destruct IH as [x [Hx Ex]]; [reflexivity|].
    exists x. split; [now right|exact Ex].
  - intros [= <-]. exists a. split; [now left|exact Ea].
Qed.

Lemma updatedFactor_error (adjacent : list Row) (row1 : Row) (e : exception) :
  updatedFactor centerIn adjacent row1 = Raise e -> e = ZeroDivisionError.
Proof.
  unfold updatedFactor. destruct (_ =? 0)%Z; [|discriminate]. now intros [= <-].
Qed.

Lemma neighborhoodEffects_error (f : nat) (mergedCells table : list Row)
      (e : exception) :
  neighborhoodEffects centerIn f mergedCells table = Raise e ->
  e = ZeroDivisionError.
Proof.
  unfold neighborhoodEffects, updatedFactors.
  destruct (mapM _ mergedCells) as [lists|e'] eqn:E; cbn; [discriminate|].
  intros [= <-]. apply mapM_Raise in E. destruct E as [row [_ E]].
  unfold updatesAround in E.
  destruct (String.eqb _ _); [|discriminate].
  apply mapM_Raise in E. destruct E as [row1 [_ E]].
  destruct (updatedFactor _ _ row1) eqn:Eu; [discriminate|].
  cbn in E. injection E as <-. eapply updatedFactor_error, Eu.
Qed.

Lemma neighborhoodEffects_filled (f : nat) (mergedCells table final : list Row) :
  neighborhoodEffects centerIn f mergedCells table = Ok final ->
  Forall (fun row => Neighb_Update row <> None) final.
Proof.
  unfold neighborhoodEffects. destruct (updatedFactors _ _ _); [|discriminate].
  cbn. intros [= <-]. apply Forall_forall. intros row Hrow.
  apply in_map_iff in Hrow. destruct Hrow as [row0 [<- _]].
  unfold writeFactor. destruct (fold_left _ _ _); discriminate.
Qed.

Lemma CalculateField_total (NeighYesNo : YesNo) (f count : nat)
      (table : list Row) :
  (NeighYesNo = Y \/ timeStep f = "2025"%string
   \/ Forall (fun row => Neighb_Update row <> None) table) ->
  exists scored,
    CalculateField ConstYesNo NeighYesNo f count table = Ok scored.
Proof.
  intros H. unfold CalculateField. apply mapM_total. intros row Hrow.
  assert (Hs : exists v, compositeScore ConstYesNo NeighYesNo f count row = Ok v).
  { unfold compositeScore.
    destruct H as [->|[H|H]].
    - destruct (_ && _); [|destruct (_ && _)]; destruct ConstYesNo; eauto.
    - rewrite H. cbn [String.eqb Ascii.eqb Bool.eqb andb].
      destruct (count <? 2)%nat eqn:E.
      + destruct ConstYesNo; eauto.
      + replace (2 <=? count)%nat with true
          by (symmetry; apply Nat.leb_le; apply Nat.ltb_ge in E; exact E).
        destruct NeighYesNo, ConstYesNo; eauto.
    - rewrite Forall_forall in H. specialize (H row Hrow).
      destruct (Neighb_Update row) as [v|] eqn:Ev; [|congruence].
      destruct (_ && _); [|destruct (_ && _)];
        destruct NeighYesNo, ConstYesNo; cbn; eauto. }
  destruct Hs as [v ->]. cbn. eauto.
Qed.

Lemma refillProbab_filled (intercept : Q) (coeff : list Q) (table : list Row) :
  Forall (fun row => Neighb_Update row <> None) table ->
  Forall (fun row => Neighb_Update row <> None)
         (refillProbab intercept coeff table).
Proof.
  intros H. unfold refillProbab. apply Forall_forall. intros row Hrow.
  apply in_map_iff in Hrow. destruct Hrow as [row0 [<- Hrow0]].
  rewrite Forall_forall in H. exact (H row0 Hrow0).
Qed.

Lemma step_error (NeighYesNo : YesNo) (intercept : Q) (coeff : list Q)
      (count f : nat) (table : list Row) (e : exception) :
  (NeighYesNo = Y \/ timeStep f = "2025"%string
   \/ Forall (fun row => Neighb_Update row <> None) table) ->
  step centerIn ConstYesNo NeighYesNo gridCellsChanged intercept coeff count f
       table = Raise e ->
  e = ZeroDivisionError /\ NeighYesNo = N.
Proof.
  intros Hpre. unfold step.
  destruct (CalculateField_total NeighYesNo f count
              (refillProbab intercept coeff table)) as [scored Es].
  { destruct Hpre as [H|[H|H]]; auto. right. right.
    now apply refillProbab_filled. }
  rewrite Es. cbn [bind].
  destruct (convert _ _ _) as [[cells cellNoList] abortScript].
  destruct (negb (String.eqb (timeStep f) "2050"));
    [destruct NeighYesNo|]; cbn [bind]; try discriminate.
  destruct (neighborhoodEffects _ _ _ _) as [final|e'] eqn:E; [discriminate|].
  cbn. intros [= <-]. split; [|reflexivity].
  eapply neighborhoodEffects_error, E.
Qed.

Lemma step_filled (NeighYesNo : YesNo) (intercept : Q) (coeff : list Q)
      (count f : nat) (table final mergedCells : list Row) (abort : bool) :
  step centerIn ConstYesNo NeighYesNo gridCellsChanged intercept coeff count f
       table = Ok (final, mergedCells, abort) ->
  (NeighYesNo = N /\ timeStep f <> "2050"%string)
  \/ Forall (fun row => Neighb_Update row <> None) table ->
  Forall (fun row => Neighb_Update row <> None) final.
Proof.
  unfold step. intros H Hpre.
  destruct (CalculateField _ _ _ _ _) as [scored|] eqn:Escored; [|discriminate].
  cbn [bind] in H.
  destruct (convert _ _ _) as [[cells cellNoList] abortScript].
  assert (Hu : Forall (fun row => Neighb_Update row <> None) table ->
               Forall (fun row => Neighb_Update row <> None)
                      (updateSurface f cellNoList scored)).
  { intros Ht.
    assert (E : map Neighb_Update (updateSurface f cellNoList scored)
                = map Neighb_Update table).
    { unfold updateSurface. rewrite map_map.
      unfold CalculateField in Escored.
      apply mapM_map_eq with (k := Neighb_Update) (h := Neighb_Update)
        in Escored.
      - rewrite <- (map_ext Neighb_Update
                      (fun row => Neighb_Update
                                    (if inList (TARGET_FID row) cellNoList
                                     then set_Wind_Turb_Fut (gained f) row
                                     else row)))
          by (intros row; now destruct (inList _ _)).
        rewrite Escored. unfold refillProbab. rewrite map_map.
        now apply map_ext.
      - intros a b Hab. destruct (compositeScore _ _ _ _ a); [|discriminate].
        cbn in Hab. now injection Hab as <-. }
    apply Forall_forall. intros row Hrow.
    apply (in_map Neighb_Update) in Hrow. rewrite E in Hrow.
    apply in_map_iff in Hrow. destruct Hrow as [row0 [<- Hrow0]].
    rewrite Forall_forall in Ht. exact (Ht row0 Hrow0). }
  destruct (String.eqb (timeStep f) "2050") eqn:E2050; cbn [negb] in H;
    [|destruct NeighYesNo]; cbn [bind] in H.
  - injection H as <- <- <-. apply Hu.
    destruct Hpre as [[_ Hne]|Ht]; [|exact Ht].
    apply String.eqb_eq in E2050. contradiction.
  - injection H as <- <- <-. apply Hu.
    destruct Hpre as [[Hn _]|Ht]; [discriminate|exact Ht].
  - destruct (neighborhoodEffects _ _ _ _) as [final'|] eqn:Eupd; [|discriminate].
    cbn [bind] in H. injection H as <- <- <-.
    eapply neighborhoodEffects_filled, Eupd.
Qed.

Lemma timeLoop_filled (intercept : Q) (dfCoeffs : list (list Q)) (count : nat) :
  forall fs table,
    Forall (fun row => Neighb_Update row <> None) table ->
    forall T M,
      In (T, M) (fst (timeLoop centerIn ConstYesNo N gridCellsChanged intercept
                               dfCoeffs count fs table)) ->
      Forall (fun row => Neighb_Update row <> None) T.
Proof.
  induction fs as [|f fs IH]; intros table Hpre T M; [intros []|].
  cbn [timeLoop].
  destruct (step _ _ _ _ _ _ _ _ _) as [[[table' m] abort]|e] eqn:Es;
    [|intros []].
  assert (Hfilled : Forall (fun row => Neighb_Update row <> None) table').
  { eapply step_filled; [exact Es|now right]. }
  destruct abort.
  - intros [[= <- <-]|[]]. exact Hfilled.
  - destruct (timeLoop _ _ _ _ _ _ _ fs table') as [later how] eqn:El.
    cbn [fst]. intros [[= <- <-]|Hin]; [exact Hfilled|].
    apply (IH table' Hfilled T M). now rewrite El.
Qed.

(** X18: with the neighborhood effects in use, every gridded surface that
    a completed time step of the projection leaves has a value in
    "Neighb_Update" for every row: the first time step does not read the
    field, and every update fills it for all rows, taking the factor of
    the initial scan where the update wrote none.  So the expressions of
    [CalculateField] in the later time steps never read a NULL
    "Neighb_Update". *)
Theorem neighb_update_filled_after_every_step (intercept : Q)
      (dfCoeffs : list (list Q)) (table T M : list Row) :
  In (T, M) (fst (projection centerIn ConstYesNo N gridCellsChanged intercept
                             dfCoeffs table)) ->
  Forall (fun row => Neighb_Update row <> None) T.
Proof.
  unfold projection.
  change (seq 0 (List.length timeSteps)) with (0%nat :: seq 1 5).
  cbn [timeLoop].
  destruct (step _ _ _ _ _ _ _ _ _) as [[[table' m] abort]|e] eqn:Es;
    [|intros []].
  assert (Hfilled : Forall (fun row => Neighb_Update row <> None) table').
  { eapply step_filled; [exact Es|left]. split; [reflexivity|discriminate]. }
  destruct abort.
  - intros [[= <- <-]|[]]. exact Hfilled.
  - destruct (timeLoop _ _ _ _ _ _ _ _ table') as [later how] eqn:El.
    cbn [fst]. intros [[= <- <-]|Hin]; [exact Hfilled|].
    apply (timeLoop_filled intercept dfCoeffs (windFarmCount table)
             (seq 1 5) table' Hfilled T M).
    now rewrite El.
Qed.

End Exceptions.

Lemma neighb_update_filled_after_every_step_witness :
  let steps := fst (projection nextTo N N 1 (-4 # 1) oneCoefficient
                               Samples.rowOfThree) in
  List.length steps = 6%nat
  /\ map Neighb_Update (fst (nth 2 steps ([], [])))
     = [Some 1%Q; Some 1%Q; Some 1%Q]
  /\ Forall (fun row => Neighb_Update row <> None) (fst (nth 2 steps ([], []))).
Proof.
  intros steps. split; [vm_compute; reflexivity|].
  split; [vm_compute; reflexivity|].
  apply (neighb_update_filled_after_every_step nextTo N 1 (-4 # 1)
           oneCoefficient Samples.rowOfThree
           (fst (nth 2 steps ([], []))) (snd (nth 2 steps ([], [])))).
  vm_compute. right. right. left. reflexivity.
Defined.

Section Unconstrained.
Variable centerIn : Z -> Z -> bool.
Variable gridCellsChanged : nat.

Lemma timeLoop_unconstrained (intercept : Q) (dfCoeffs : list (list Q))
      (count : nat) :
  forall fs table,
    snd (timeLoop centerIn Y Y gridCellsChanged intercept dfCoeffs count fs
                  table) = Completed
    /\ List.length (fst (timeLoop centerIn Y Y gridCellsChanged intercept
                                  dfCoeffs count fs table))
       = List.length fs.
Proof.
  induction fs as [|f fs IH]; intros table; [split; reflexivity|].
  cbn [timeLoop].
  destruct (step _ _ _ _ _ _ _ _ _) as [[[table' m] abort]|e] eqn:Es.
  - pose proof Es as Hinv. apply step_inv in Hinv.
    destruct Hinv as (_ & _ & _ & _ & _ & _ & -> & _).
    specialize (IH table').
    destruct (timeLoop _ _ _ _ _ _ _ fs table') as [later how].
    cbn [fst snd] in *. destruct IH as [-> IH]. split; [reflexivity|].
    cbn [List.length]. now rewrite IH.
  - exfalso. apply step_error in Es; [|now left].
    destruct Es as [_ Es]. discriminate.
Qed.

(** X19: with both the constraints and the neighborhood effects switched
    off, the projection of a configuration always runs through all six
    time steps: no exception, no early break, whatever the grid, the
    coefficients and the quota. *)
Theorem unconstrained_projection_completes (intercept : Q)
      (dfCoeffs : list (list Q)) (table : list Row) :
  snd (projection centerIn Y Y gridCellsChanged intercept dfCoeffs table)
  = Completed
  /\ List.length (fst (projection centerIn Y Y gridCellsChanged intercept
                                  dfCoeffs table)) = 6%nat.
Proof. unfold projection. apply timeLoop_unconstrained. Qed.

End Unconstrained.

(** ** The neighborhood effect factors *)

Section Neighbors.
Variable centerIn : Z -> Z -> bool.

(** A selection by location around rows that all have the cell number [g]
    keeps the rows with their center within the search distance of [g]. *)
Lemma select_around (layer selecting : list Row) (g : Z) :
  selecting <> [] ->
  (forall s, In s selecting -> TARGET_FID s = g) ->
  SelectLayerByLocation centerIn layer selecting
  = filter (fun r => centerIn (TARGET_FID r) g) layer.
Proof.
  intros Hne Hall. unfold SelectLayerByLocation. apply filter_ext. intros r.
  apply eq_true_iff_eq. rewrite existsb_exists. split.
  - intros [s [Hs Hc]]. now rewrite <- (Hall s Hs).
  - intros Hc. destruct selecting as [|s rest]; [contradiction|].
    exists s. split; [now left|]. rewrite (Hall s); [exact Hc|now left].
Qed.

Lemma filter_split_length {A : Type} (P Q : A -> bool) (l : list A) :
  List.length (filter P l)
  = (List.length (filter (fun x => P x && Q x) l)
     + List.length (filter (fun x => P x && negb (Q x)) l))%nat.
Proof.
  induction l as [|x l IH]; [reflexivity|].
  cbn. destruct (P x), (Q x); cbn; lia.
Qed.

Lemma one_row_per_cell (l : list Row) (row : Row) :
  NoDup (map TARGET_FID l) -> In row l ->
  List.length (filter (fun r => (TARGET_FID r =? TARGET_FID row)%Z) l) = 1%nat.
Proof.
  induction l as [|a l IH]; intros Hnd Hin; [contradiction|].
  cbn in Hnd. inversion_clear Hnd as [|? ? Ha Hnd'].
  cbn [filter]. destruct Hin as [->|Hin].
  - rewrite Z.eqb_refl. cbn. f_equal.
    rewrite filter_nil; [reflexivity|].
    intros x Hx. apply Z.eqb_neq. intros E. apply Ha. rewrite <- E.
    now apply in_map.
  - destruct (Z.eqb_spec (TARGET_FID a) (TARGET_FID row)) as [E|E].
    + exfalso. apply Ha. rewrite E. now apply in_map.
    + now apply IH.
Qed.

(** The rows within the search distance of the cell of [row] are [row]
    itself and its full neighbor set. *)
Lemma around_length (l : list Row) (row : Row) :
  NoDup (map TARGET_FID l) -> In row l ->
  centerIn (TARGET_FID row) (TARGET_FID row) = true ->
  List.length (filter (fun r => centerIn (TARGET_FID r) (TARGET_FID row)) l)
  = S (List.length (Spec.fullNeighborSet centerIn l (TARGET_FID row))).
Proof.
  intros Hnd Hin Hself.
  rewrite (filter_split_length _ (fun r => (TARGET_FID r =? TARGET_FID row)%Z)).
  unfold Spec.fullNeighborSet.
  rewrite (filter_ext (fun x => centerIn (TARGET_FID x) (TARGET_FID row)
                                && (TARGET_FID x =? TARGET_FID row)%Z)
                      (fun r => (TARGET_FID r =? TARGET_FID row)%Z)).
  - now rewrite one_row_per_cell.
  - intros x. destruct (Z.eqb_spec (TARGET_FID x) (TARGET_FID row)) as [->|_].
    + now rewrite Hself.
    + apply andb_false_r.
Qed.

(** X20: on a surface with unique cell numbers, the factor that the initial
    scan gives a grid cell is the share of grid cells with a wind farm
    among the other grid cells within the search distance, and 0 when
    there is no other grid cell within the search distance. *)
Theorem scan_factor_is_share_of_neighbors (preparedSurface : list Row)
                                          (row : Row) :
  NoDup (map TARGET_FID preparedSurface) ->
  In row preparedSurface ->
  centerIn (TARGET_FID row) (TARGET_FID row) = true ->
  let neighbors :=
    Spec.fullNeighborSet centerIn preparedSurface (TARGET_FID row) in
  let farms := filter (fun r => String.eqb (Wind_Turb r) "Y") neighbors in
  ConstraintNeighborhood.neighborhoodEffect centerIn preparedSurface
    (TARGET_FID row)
  = match neighbors with
    | [] => 0%Q
    | _ :: _ => (inject_Z (Z.of_nat (List.length farms))
                 / inject_Z (Z.of_nat (List.length neighbors)))%Q
    end.
Proof.
  intros Hnd Hin Hself neighbors farms.
  unfold ConstraintNeighborhood.neighborhoodEffect.
  rewrite (select_around preparedSurface _ (TARGET_FID row)).
  - rewrite (around_length preparedSurface row Hnd Hin Hself).
    fold neighbors.
    replace (Z.of_nat (S (List.length neighbors)) - 1)%Z
      with (Z.of_nat (List.length neighbors)) by lia.
    rewrite filter_filter_and.
    replace (filter _ preparedSurface) with farms.
    + destruct neighbors as [|n ns] eqn:E; [reflexivity|].
      replace (0 <? Z.of_nat (List.length (n :: ns)))%Z with true;
        [reflexivity|].
      symmetry. apply Z.ltb_lt. cbn [List.length]. lia.
    + unfold farms, neighbors, Spec.fullNeighborSet.
      rewrite filter_filter_and. apply filter_ext. intros x.
      destruct (centerIn (TARGET_FID x) (TARGET_FID row)),
        (String.eqb (Wind_Turb x) "Y"),
        (TARGET_FID x =? TARGET_FID row)%Z; reflexivity.
  - unfold SelectLayerByAttribute. intros E.
    apply (filter_nil_inv _ _ row E) in Hin.
    now rewrite Z.eqb_refl in Hin.
  - intros s Hs. apply filter_In in Hs. destruct Hs as [_ Hs].
    now apply Z.eqb_eq in Hs.
Qed.

Lemma mapM_Ok_In {A B : Type} (g : A -> result B) (l : list A) (l' : list B)
      (a : A) :
  mapM g l = Ok l' -> In a l -> exists b, g a = Ok b.
Proof.
  revert l'. induction l as [|x l IH]; intros l' H Hin; [contradiction|].
  cbn in H. destruct (g x) as [b|] eqn:Ex; [|discriminate].
  destruct (mapM g l) as [bs|] eqn:El; [|discriminate].
  destruct Hin as [<-|Hin]; [now exists b|]. now apply (IH bs).
Qed.

Lemma two_rows (l : list Row) (a b : Row) :
  In a l -> In b l -> TARGET_FID a <> TARGET_FID b ->
  (2 <= List.length l)%nat.
Proof.
  intros Ha Hb Hne. destruct l as [|x [|y l]]; cbn in *;
    [contradiction| |lia].
  destruct Ha as [<-|[]], Hb as [<-|[]]. congruence.
Qed.

Section Update.
Hypothesis centerIn_refl : forall a, centerIn a a = true.
Hypothesis centerIn_sym : forall a b, centerIn a b = centerIn b a.
Variable mergedCells : list Row.
Hypothesis Hnd : NoDup (map TARGET_FID mergedCells).

(** [adjacent] of the update for the row [row] of [mergedCells]. *)
Lemma adjacent_around (row : Row) :
  In row mergedCells ->
  SelectLayerByLocation centerIn mergedCells
    (SelectLayerByAttribute mergedCells
       (fun r => String.eqb (Wind_Turb_Fut r) (Wind_Turb_Fut row)
                 && (TARGET_FID r =? TARGET_FID row)%Z))
  = filter (fun r => centerIn (TARGET_FID r) (TARGET_FID row)) mergedCells.
Proof.
  intros Hin. apply select_around.
  - unfold SelectLayerByAttribute. intros E.
    apply (filter_nil_inv _ _ row E) in Hin.
    now rewrite String.eqb_refl, Z.eqb_refl in Hin.
  - intros s Hs. apply filter_In in Hs. destruct Hs as [_ Hs].
    apply andb_prop in Hs. destruct Hs as [_ Hs]. now apply Z.eqb_eq in Hs.
Qed.

(** [neighbors] of the update for the row [row1] of [adjacent]. *)
Lemma neighbors_around (adjacent : list Row) (row1 : Row) :
  In row1 adjacent ->
  SelectLayerByLocation centerIn adjacent
    (SelectLayerByAttribute adjacent
       (fun r => (TARGET_FID r =? TARGET_FID row1)%Z))
  = filter (fun r => centerIn (TARGET_FID r) (TARGET_FID row1)) adjacent.
Proof.
  intros Hin. apply select_around.
  - unfold SelectLayerByAttribute. intros E.
    apply (filter_nil_inv _ _ row1 E) in Hin.
    now rewrite Z.eqb_refl in Hin.
  - intros s Hs. apply filter_In in Hs. destruct Hs as [_ Hs].
    now apply Z.eqb_eq in Hs.
Qed.

Lemma updatedFactor_Raise (adjacent : list Row) (row1 : Row) :
  In row1 adjacent ->
  (updatedFactor centerIn adjacent row1 = Raise ZeroDivisionError
   <-> List.length (filter (fun r => centerIn (TARGET_FID r) (TARGET_FID row1))
                           adjacent) = 1%nat).
Proof.
  intros Hin. unfold updatedFactor. rewrite (neighbors_around adjacent row1 Hin).
  set (n := List.length _).
  destruct (Z.eqb_spec (Z.of_nat n - 1) 0) as [E|E].
  - split; [lia|reflexivity].
  - split; [discriminate|lia].
Qed.

Lemma filter_idem {A : Type} (P : A -> bool) (l : list A) :
  filter P (filter P l) = filter P l.
Proof.
  rewrite filter_filter_and. apply filter_ext. intros x. now destruct (P x).
Qed.

(** The update around the row [row] fails exactly when [row] has no other
    cell within the search distance. *)
Lemma update_around_Raise (row : Row) :
  In row mergedCells ->
  let adjacent :=
    filter (fun r => centerIn (TARGET_FID r) (TARGET_FID row)) mergedCells in
  ((exists row1, In row1 adjacent
                 /\ updatedFactor centerIn adjacent row1
                    = Raise ZeroDivisionError)
   <-> Spec.fullNeighborSet centerIn mergedCells (TARGET_FID row) = []).
Proof.
  intros Hin adjacent.
  assert (Hrow : In row adjacent).
  { apply filter_In. split; [exact Hin|apply centerIn_refl]. }
  assert (Hlen : List.length adjacent
                 = S (List.length (Spec.fullNeighborSet centerIn mergedCells
                                     (TARGET_FID row))))
    by (apply around_length; auto).
  split.
  - intros [row1 [H1 Hr]]. apply (updatedFactor_Raise adjacent row1 H1) in Hr.
    destruct (Z.eq_dec (TARGET_FID row1) (TARGET_FID row)) as [E|E].
    + rewrite E in Hr. unfold adjacent in Hr at 1. rewrite filter_idem in Hr.
      fold adjacent in Hr. rewrite Hlen in Hr.
      apply length_zero_iff_nil. lia.
    + exfalso.
      assert (H2 : (2 <= List.length
                          (filter (fun r => centerIn (TARGET_FID r)
                                                     (TARGET_FID row1))
                                  adjacent))%nat).
      { apply (two_rows _ row1 row); [| |exact E].
        - apply filter_In. split; [exact H1|apply centerIn_refl].
        - apply filter_In. split; [exact Hrow|].
          rewrite centerIn_sym. apply filter_In in H1. apply H1. }
      lia.
  - intros Hnone. exists row. split; [exact Hrow|].
    apply (updatedFactor_Raise adjacent row Hrow).
    unfold adjacent at 1. rewrite filter_idem. fold adjacent.
    rewrite Hlen, Hnone. reflexivity.
Qed.

(** X21: with unique cell numbers and a symmetric search distance, the
    update of the neighborhood effect factors raises ZeroDivisionError
    exactly when a grid cell that gained a wind farm in this time step has
    no other grid cell within the search distance; its neighbors never
    make it fail, since each of them has the gained cell as a neighbor. *)
Theorem update_fails_iff_isolated_gain (f : nat) (table : list Row) :
  neighborhoodEffects centerIn f mergedCells table = Raise ZeroDivisionError
  <-> exists row,
        In row mergedCells
        /\ Wind_Turb_Fut row = gained f
        /\ Spec.fullNeighborSet centerIn mergedCells (TARGET_FID row) = [].
Proof.
  unfold neighborhoodEffects, updatedFactors. split.
  - destruct (mapM _ mergedCells) as [lists|e] eqn:E; cbn; [discriminate|].
    intros _. apply mapM_Raise in E. destruct E as [row [Hin E]].
    unfold updatesAround in E.
    destruct (String.eqb _ _) eqn:El; [|discriminate].
    apply String.eqb_eq in El. rewrite (adjacent_around row Hin) in E.
    exists row. split; [exact Hin|]. split; [exact El|].
    apply (update_around_Raise row Hin).
    destruct (mapM _ (filter _ mergedCells)) as [vs|e'] eqn:Em; [discriminate|].
    apply mapM_Raise in Em. destruct Em as [row1 [H1 Em]].
    exists row1. split; [exact H1|].
    destruct (updatedFactor _ _ row1) as [v|e''] eqn:Eu; [discriminate|].
    unfold updatedFactor in Eu. destruct (_ =? 0)%Z; [|discriminate].
    now injection Eu as <-.
  - intros [row [Hin [El Hnone]]].
    apply (update_around_Raise row Hin) in Hnone.
    destruct Hnone as [row1 [H1 Hr]].
    destruct (mapM _ mergedCells) as [lists|e] eqn:E; cbn.
    + exfalso. destruct (mapM_Ok_In _ _ _ row E Hin) as [vs Evs].
      unfold updatesAround in Evs. rewrite El, String.eqb_refl in Evs.
      rewrite <- El in Evs. rewrite (adjacent_around row Hin) in Evs.
      destruct (mapM_Ok_In _ _ _ row1 Evs H1) as [v Ev].
      rewrite Hr in Ev. discriminate.
    + f_equal. apply mapM_Raise in E. destruct E as [row0 [_ E]].
      unfold updatesAround in E. destruct (String.eqb _ _); [|discriminate].
      apply mapM_Raise in E. destruct E as [row2 [_ E]].
      destruct (updatedFactor _ _ row2) as [v|e''] eqn:Eu; [discriminate|].
      cbn in E. injection E as <-.
      unfold updatedFactor in Eu. destruct (_ =? 0)%Z; [|discriminate].
      now injection Eu as <-.
Qed.

End Update.
End Neighbors.

Lemma nextTo_refl (a : Z) : nextTo a a = true.
Proof. unfold nextTo. apply Z.leb_le. lia. Qed.

Lemma nextTo_sym (a b : Z) : nextTo a b = nextTo b a.
Proof. unfold nextTo. f_equal. lia. Qed.

Lemma scan_factor_is_share_of_neighbors_witness :
  ConstraintNeighborhood.neighborhoodEffect nextTo threeCells 1
  = (inject_Z 1 / inject_Z 1)%Q.
Proof.
  apply (scan_factor_is_share_of_neighbors nextTo threeCells
           (nth 0 threeCells halfwayCell)).
  - vm_compute. repeat constructor; cbn; intuition discriminate.
  - left. reflexivity.
  - reflexivity.
Defined.

Lemma update_fails_iff_isolated_gain_witness :
  let mergedCells :=
    [mkRow 1 "Y" 1%Q 1%Q None 0%R 0%R "Y" [];
     mkRow 2 "Y" 1%Q 1%Q None 0%R 0%R "Y" [];
     mkRow 4 "N" 1%Q 0%Q None 0%R 0%R "Y (2025)" []] in
  neighborhoodEffects nextTo 0 mergedCells mergedCells
  = Raise ZeroDivisionError.
Proof.
  intros mergedCells.
  apply (update_fails_iff_isolated_gain nextTo nextTo_refl nextTo_sym
           mergedCells).
  - vm_compute. repeat constructor; cbn; intuition discriminate.
  - exists (mkRow 4 "N" 1%Q 0%Q None 0%R 0%R "Y (2025)" []).
    split; [right; right; left; reflexivity|]. split; reflexivity.
Defined.

(** ** The reported disagreement *)

Section TableSums.
Variables countsNull countsOther : list (list Z).

(** X22: the sums of the first six rows and of the first six columns of
    the transposed table differ by what their seventh row and column
    differ: the reported quantity disagreement [quantDisStar] compares the
    totals of the last classification, "Y (2050)", only. *)
Theorem quantity_disagreement_compares_last_class :
  quantDisStar countsNull countsOther
  = Z.abs (alongRow countsNull countsOther 6
           - alongColumn countsNull countsOther 6).
Proof. unfold quantDisStar, alongRow, alongColumn. lia. Qed.

End TableSums.

Section DisagreementSums.
Variables projectedNull projectedOther : list Row.

Lemma cell_entry (i j : nat) :
  (i < 7)%nat -> (j < 7)%nat ->
  cell (counts projectedNull) (counts projectedOther) i j
  = countIn (nth j (counts projectedNull) [])
            (nth i (counts projectedOther) []).
Proof.
  intros Hi Hj.
  do 7 (destruct i as [|i]; [do 7 (destruct j as [|j]; [reflexivity|]); lia|]).
  lia.
Qed.

Lemma bottom_alongRow (k : nat) :
  (k < 7)%nat ->
  bottom (counts projectedNull) (counts projectedOther) k
  = alongRow (counts projectedNull) (counts projectedOther) k.
Proof.
  intros Hk. unfold alongRow.
  do 7 (destruct k as [|k];
        [unfold bottom, cell, transList, listOfLists, bottomRow, tableList, total;
         cbn -[countIn Z.add]; lia|]).
  lia.
Qed.

Lemma bottom_total :
  bottom (counts projectedNull) (counts projectedOther) 7
  = (bottom (counts projectedNull) (counts projectedOther) 0
     + bottom (counts projectedNull) (counts projectedOther) 1
     + bottom (counts projectedNull) (counts projectedOther) 2
     + bottom (counts projectedNull) (counts projectedOther) 3
     + bottom (counts projectedNull) (counts projectedOther) 4
     + bottom (counts projectedNull) (counts projectedOther) 5
     + bottom (counts projectedNull) (counts projectedOther) 6)%Z.
Proof.
  unfold bottom, listOfLists, bottomRow, tableList, total.
  cbn -[countIn Z.add]. lia.
Qed.

Lemma half_of_double (z : Z) : (inject_Z (2 * z) / 2 == inject_Z z)%Q.
Proof.
  unfold Qeq, Qdiv, Qmult, Qinv, inject_Z. cbn [Qnum Qden]. lia.
Qed.

(** [absoDis] is the sum over the classifications of the column total less
    the diagonal entry. *)
Lemma absoDis_sum :
  (absoDis (counts projectedNull) (counts projectedOther)
   == inject_Z
        ((bottom (counts projectedNull) (counts projectedOther) 0
            - cell (counts projectedNull) (counts projectedOther) 0 0)
         + (bottom (counts projectedNull) (counts projectedOther) 1
            - cell (counts projectedNull) (counts projectedOther) 1 1)
         + (bottom (counts projectedNull) (counts projectedOther) 2
            - cell (counts projectedNull) (counts projectedOther) 2 2)
         + (bottom (counts projectedNull) (counts projectedOther) 3
            - cell (counts projectedNull) (counts projectedOther) 3 3)
         + (bottom (counts projectedNull) (counts projectedOther) 4
            - cell (counts projectedNull) (counts projectedOther) 4 4)
         + (bottom (counts projectedNull) (counts projectedOther) 5
            - cell (counts projectedNull) (counts projectedOther) 5 5)
         + (bottom (counts projectedNull) (counts projectedOther) 6
            - cell (counts projectedNull) (counts projectedOther) 6 6))%Z)%Q.
Proof.
  unfold absoDis. rewrite !cell_7_bottom by lia. rewrite !Z.min_id.
  match goal with
  | |- (_ == inject_Z ?y)%Q => rewrite <- (half_of_double y)
  end.
  match goal with
  | |- (inject_Z ?x / 2 == inject_Z ?y / 2)%Q => replace x with y by lia
  end.
  reflexivity.
Qed.

(** X23: the allocation disagreement [absoDis] is the number of grid cells
    of the contingency table off its diagonal, the sum of the 42 entries
    [transList[i][j]] with [i <> j] among the seven classifications: all
    grid cells that the two configurations classify differently, the
    quantity disagreement included. *)
Theorem allocation_disagreement_counts_off_diagonal :
  let countsNull := counts projectedNull in
  let countsOther := counts projectedOther in
  let offDiagonal :=
    total (map (fun i =>
                  total (map (fun j => if (i =? j)%nat then 0%Z
                                       else cell countsNull countsOther i j)
                             (seq 0 7)))
               (seq 0 7)) in
  (absoDis countsNull countsOther == inject_Z offDiagonal)%Q.
Proof.
  intros countsNull countsOther offDiagonal.
  unfold countsNull, countsOther. rewrite absoDis_sum.
  match goal with
  | |- (inject_Z ?x == inject_Z ?y)%Q => replace y with x; [reflexivity|]
  end.
  rewrite !bottom_alongRow by lia.
  unfold offDiagonal, countsNull, countsOther, alongRow, total.
  cbn [seq map fold_left Nat.eqb]. lia.
Qed.

End DisagreementSums.

Section SelfComparison.
Variable projectedCells : list Row.
Hypothesis Hnd : NoDup (map TARGET_FID projectedCells).

Lemma countIn_disjoint (l m : list Z) :
  (forall x, In x l -> ~ In x m) -> countIn l m = 0%Z.
Proof.
  intros H. unfold countIn. rewrite filter_nil; [reflexivity|].
  intros x Hx. destruct (inList x m) eqn:E; [|reflexivity].
  apply inList_In in E. exfalso. now apply (H x).
Qed.

Lemma counts_class (j : nat) :
  (j < 7)%nat ->
  nth j (counts projectedCells) []
  = map TARGET_FID
        (filter (fun row => String.eqb (Wind_Turb_Fut row)
                                       (nth j classifications ""%string))
                projectedCells).
Proof.
  intros Hj. do 7 (destruct j as [|j]; [reflexivity|]). lia.
Qed.

(** A grid cell has one classification: compared with itself, a
    projection has no grid cell off the diagonal. *)
Lemma off_diagonal_zero (i j : nat) :
  (i < 7)%nat -> (j < 7)%nat -> i <> j ->
  cell (counts projectedCells) (counts projectedCells) i j = 0%Z.
Proof.
  intros Hi Hj Hne. rewrite cell_entry by assumption.
  rewrite !counts_class by assumption.
  apply countIn_disjoint. intros x Hx Hx'.
  apply in_map_iff in Hx, Hx'.
  destruct Hx as [r [Er Hr]], Hx' as [r' [Er' Hr']].
  apply filter_In in Hr, Hr'. destruct Hr as [Hr Hl], Hr' as [Hr' Hl'].
  assert (E : r = r').
  { apply (NoDup_map_inj TARGET_FID projectedCells r r' Hnd Hr Hr').
    congruence. }
  subst r'. apply String.eqb_eq in Hl, Hl'. rewrite Hl in Hl'.
  clear - Hi Hj Hne Hl'.
  do 7 (destruct i as [|i];
        [do 7 (destruct j as [|j]; [first [congruence|discriminate]|]); lia|]).
  lia.
Qed.

(** X24: a projection with unique cell numbers compared with itself has
    no disagreement: the reported quantity disagreement and the reported
    allocation disagreement are both 0. *)
Theorem self_comparison_no_disagreement :
  (qFinal (counts projectedCells) (counts projectedCells) == 0)%Q
  /\ (aFinal (counts projectedCells) (counts projectedCells) == 0)%Q.
Proof.
  assert (Hstar : quantDisStar (counts projectedCells) (counts projectedCells)
                  = 0%Z).
  { unfold quantDisStar, alongRow, alongColumn.
    repeat match goal with
           | |- context [cell _ _ ?i ?j] =>
               lazymatch i with
               | j => fail
               | _ => rewrite (off_diagonal_zero i j) by lia
               end
           end.
    lia. }
  assert (Habs : (absoDis (counts projectedCells) (counts projectedCells)
                  == 0)%Q).
  { rewrite absoDis_sum. rewrite !bottom_alongRow by lia. unfold alongRow.
    repeat match goal with
           | |- context [cell _ _ ?i ?j] =>
               lazymatch i with
               | j => fail
               | _ => rewrite (off_diagonal_zero i j) by lia
               end
           end.
    match goal with
    | |- (inject_Z ?z == 0)%Q => replace z with 0%Z by lia
    end.
    reflexivity. }
  unfold qFinal, aFinal. rewrite quantDis_zero, Hstar.
  cbn [Qeq_bool negb]. split; [reflexivity|exact Habs].
Qed.

End SelfComparison.

Lemma self_comparison_no_disagreement_witness :
  let projectedCells :=
    [classifiedCell 1 "Y (2025)"; classifiedCell 2 "N";
     classifiedCell 3 "Y (2050)"] in
  (qFinal (counts projectedCells) (counts projectedCells) == 0)%Q
  /\ (aFinal (counts projectedCells) (counts projectedCells) == 0)%Q.
Proof.
  intros projectedCells.
  apply (self_comparison_no_disagreement projectedCells).
  vm_compute. repeat constructor; cbn; intuition discriminate.
Defined.

(** ** The probability *)

Section Probability.

Lemma sum_from (l : list Q) (a : Q) :
  (fold_left Qplus l a == a + sum l)%Q.
Proof.
  unfold sum. revert a. induction l as [|x l IH]; intros a; cbn.
  - ring.
  - rewrite IH, (IH (0 + x)%Q). ring.
Qed.

Lemma sum_zero (l : list Q) :
  Forall (fun q => q == 0)%Q l -> (sum l == 0)%Q.
Proof.
  induction 1 as [|x l Hx _ IH]; [reflexivity|].
  unfold sum. cbn. rewrite sum_from, IH, Hx. ring.
Qed.

Lemma multiply_zero_r (a b : list Q) :
  Forall (fun q => q == 0)%Q b -> Forall (fun q => q == 0)%Q (multiply a b).
Proof.
  intros H. revert a. induction H as [|x b Hx _ IH]; intros [|u a]; cbn;
    constructor; [rewrite Hx; ring|apply IH].
Qed.

Lemma multiply_zero_l (a b : list Q) :
  Forall (fun q => q == 0)%Q a -> Forall (fun q => q == 0)%Q (multiply a b).
Proof.
  intros H. revert b. induction H as [|x a Hx _ IH]; intros [|u b]; cbn;
    constructor; [rewrite Hx; ring|apply IH].
Qed.

(** X25: under the null configuration, whose dataframe of predictors is a
    column of zeros, every grid cell gets the same probability
    [1/(1+e**-intercept)], whatever the coefficients: the ranking of the
    null model rests on the constraints, the neighborhood effects and the
    order of the table alone. *)
Theorem null_model_probability (intercept : Q) (coeff : list Q)
                               (table : list Row) :
  Forall (fun row => Probab row = (1 / (1 + exp (- Q2R intercept)))%R)
         (refillProbab intercept coeff
                       (map (set_predictorValues [0%Q]) table)).
Proof.
  apply Forall_forall. intros row Hrow. unfold refillProbab in Hrow.
  apply in_map_iff in Hrow. destruct Hrow as [row0 [<- Hrow0]].
  apply in_map_iff in Hrow0. destruct Hrow0 as [row1 [<- _]].
  cbn [Probab set_Probab predictorValues set_predictorValues]. unfold prob.
  do 4 f_equal. apply Qeq_eqR.
  rewrite sum_zero; [ring|]. apply multiply_zero_r.
  apply Forall_firstn. constructor; [reflexivity|constructor].
Qed.

(** X26: the probability rises with the linear predictor
    [sum(coeff[0:n]*dfArray[cell][0:n])]: with the constraints and the
    neighborhood effects switched off, the cells are ranked by their
    linear predictor. *)
Theorem probability_follows_linear_predictor (intercept : Q) (coeff : list Q)
                                             (n : nat) (cell1 cell2 : list Q) :
  (sum (multiply (firstn n coeff) (firstn n cell1))
   <= sum (multiply (firstn n coeff) (firstn n cell2)))%Q ->
  (prob intercept coeff n cell1 <= prob intercept coeff n cell2)%R.
Proof.
  intros H. unfold prob.
  set (z1 := Q2R _). set (z2 := Q2R _).
  assert (Hz : (z1 <= z2)%R).
  { unfold z1, z2. apply Qle_Rle. now apply Qplus_le_r. }
  assert (He : (exp (- z2) <= exp (- z1))%R).
  { destruct Hz as [Hz|Hz]; [left; apply exp_increasing; lra|right; now rewrite Hz]. }
  pose proof (exp_pos (- z1)). pose proof (exp_pos (- z2)).
  unfold Rdiv. rewrite !Rmult_1_l.
  apply Rinv_le_contravar; lra.
Qed.

End Probability.

Lemma probability_follows_linear_predictor_witness :
  (prob (-4 # 1) [2 # 1] 1 [1 # 2] <= prob (-4 # 1) [2 # 1] 1 [3 # 2])%R.
Proof.
  apply (probability_follows_linear_predictor (-4 # 1) [2 # 1] 1
           [1 # 2] [3 # 2]).
  vm_compute. discriminate.
Defined.
